(** * Observer / Observable: a shallow embedding of [newIndex.ts]

    The TypeScript program defines two classes.  An [Observer] wraps a record
    of optional callbacks together with a private flag [isUnsubscribed] and a
    public, optional teardown slot [_unsubscribe].  An [Observable] wraps a
    producer function; [subscribe] allocates a fresh [Observer], runs the
    producer on it, stores the closure the producer returned (if any) in the
    teardown slot and hands back an object whose only method forwards to
    [observer.unsubscribe()].

    Objects are mutable and shared (the producer and the returned handle both
    hold the same observer), so the embedding keeps observers in a store and
    passes references around.  JavaScript code may raise, so computations
    live in a state-and-exception monad over that store.  Callbacks supplied
    by the caller are foreign code: the model records every invocation of
    one, with its receiver and arguments, in a trace.

    The repository holds a second copy of the program (typed errors, and
    [typeof unsubscribeFn === 'function'] as the test in [subscribe]).  Its
    [Observer] and [Observable] are the same code; the one difference this
    model can see is the text that the teardown of [from] logs, and nothing
    below depends on that text. *)

From stdpp Require Import base option list strings.
From Stdlib Require Import ZArith Lia.

Set Default Proof Using "Type".

(** ** Values of the object language *)

(** A reference to an [Observer] object: its index in the store. *)
Abbreviation ObsRef := nat.

(** JavaScript exceptions that the modelled code could raise.  [TypeError]
    is what calling [undefined] as a function raises.  [DanglingRef] has no
    JavaScript counterpart (a reference always denotes a live object); it is
    what the model answers for a reference that was never allocated. *)
Inductive Exn :=
| TypeError
| DanglingRef.

Inductive Outcome (A : Type) :=
| Return (a : A)
| Throw (e : Exn).
Arguments Return {A} a.
Arguments Throw {A} e.

(** [type Handler<T> = { next?, error?, complete? }].  A missing property
    reads as [undefined], here [None]; a present one holds the identity of
    the caller's function. *)
Module Handler.
Record t {Fn : Type} := mk {
  next : option Fn;
  error : option Fn;
  complete : option Fn;
}.
Arguments t : clear implicits.
Arguments mk {Fn} next error complete.
End Handler.

Section Model.
(** [T] is the type of emitted values, [Err] the type of error values
    ([any] in one copy of the program, [Error] in the other) and [Fn] the
    type of identities of caller-supplied functions. *)
Context {T Err Fn : Type}.

(** A value of type [() => void] that can sit in the teardown slot: either
    the closure built by [Observable.from], whose body is a single
    [console.log(msg)], or a function supplied by a caller's producer. *)
Inductive Teardown :=
| console_log (msg : string)
| teardown_fn (f : Fn).

(** One invocation of foreign code. *)
Inductive Call :=
| call_next (f : Fn) (value : T)      (* this.handlers.next(value) *)
| call_error (f : Fn) (err : Err)     (* this.handlers.error(error) *)
| call_complete (f : Fn)              (* this.handlers.complete() *)
| call_teardown (t : Teardown).       (* this._unsubscribe() *)

(** The fields of [class Observer<T>]. *)
Record Observer := mkObserver {
  handlers : Handler.t Fn;
  isUnsubscribed : bool;
  _unsubscribe : option Teardown;
}.

(** The store: allocated observers, and the calls made so far, each tagged
    with the observer ([this]) that made it. *)
Record Store := mkStore {
  heap : list Observer;
  trace : list (ObsRef * Call);
}.

(** ** The monad *)

(** A computation transforms the store and either returns or throws.  As
    in JavaScript, the effects performed before a [throw] persist. *)
Definition M (A : Type) : Type := Store → Outcome A * Store.

#[global] Instance M_ret : MRet M := λ A a s, (Return a, s).

#[global] Instance M_bind : MBind M := λ A B k m s,
  match m s with
  | (Return a, s') => k a s'
  | (Throw e, s') => (Throw e, s')
  end.

Definition throw {A} (e : Exn) : M A := λ s, (Throw e, s).

(** Reading the object behind a reference. *)
Definition deref (r : ObsRef) : M Observer := λ s,
  match heap s !! r with
  | Some o => (Return o, s)
  | None => (Throw DanglingRef, s)
  end.

(** Updating the object behind a reference in place. *)
Definition update (r : ObsRef) (f : Observer → Observer) : M unit := λ s,
  match heap s !! r with
  | Some o => (Return (), mkStore (<[r := f o]> (heap s)) (trace s))
  | None => (Throw DanglingRef, s)
  end.

(** [new]: the object gets the next free reference. *)
Definition alloc (o : Observer) : M ObsRef := λ s,
  (Return (length (heap s)), mkStore (heap s ++ [o]) (trace s)).

(** A call [f(args)] made by observer [this], where [f] was read from an
    optional property.  Calling [undefined] raises a [TypeError]; calling
    a function hands control to foreign code, which is recorded. *)
Definition invoke {X} (this : ObsRef) (f : option X) (c : X → Call) : M unit :=
  match f with
  | Some x => λ s, (Return (), mkStore (heap s) (trace s ++ [(this, c x)]))
  | None => throw TypeError
  end.

(** Truthiness of an optional function value, as tested by [if (f)] and
    by [typeof f === 'function']. *)
Definition truthy {X} (f : option X) : bool :=
  match f with Some _ => true | None => false end.

(** [xs.forEach(body)] *)
Fixpoint forEach {A} (xs : list A) (body : A → M unit) : M unit :=
  match xs with
  | [] => mret ()
  | x :: xs' => body x;; forEach xs' body
  end.

(** [for (let i = 0; i < n; i++) body] *)
Fixpoint times (n : nat) (body : M unit) : M unit :=
  match n with
  | O => mret ()
  | S n' => body;; times n' body
  end.
End Model.

Arguments Teardown : clear implicits.
Arguments Call : clear implicits.
Arguments Observer : clear implicits.
Arguments Store : clear implicits.
Arguments M : clear implicits.

(** ** class Observer<T> *)
Module Observer.
Section Methods.
Context {T Err Fn : Type}.
Local Abbreviation M := (M T Err Fn).
Local Abbreviation Observer := (Observer Fn).

Definition set_isUnsubscribed (b : bool) (o : Observer) : Observer :=
  mkObserver (handlers o) b (_unsubscribe o).

Definition set__unsubscribe (t : option (Teardown Fn)) (o : Observer) : Observer :=
  mkObserver (handlers o) (isUnsubscribed o) t.

(** [constructor(handlers)]: stores the handlers, clears the flag and
    leaves [_unsubscribe] undefined. *)
Definition new (handlers : Handler.t Fn) : M ObsRef :=
  alloc (mkObserver handlers false None).

(** [unsubscribe()]:
    [this.isUnsubscribed = true; if (this._unsubscribe) this._unsubscribe();] *)
Definition unsubscribe (this : ObsRef) : M unit :=
  update this (set_isUnsubscribed true);;
  o ← deref this;
  if truthy (_unsubscribe o)
  then invoke this (_unsubscribe o) call_teardown
  else mret ().

(** [next(value)]:
    [if (this.handlers.next && !this.isUnsubscribed) this.handlers.next(value);] *)
Definition next (this : ObsRef) (value : T) : M unit :=
  o ← deref this;
  if truthy (Handler.next (handlers o)) && negb (isUnsubscribed o)
  then invoke this (Handler.next (handlers o)) (λ f, call_next f value)
  else mret ().

(** [error(error)]:
    [if (!this.isUnsubscribed) { if (this.handlers.error) this.handlers.error(error); this.unsubscribe(); }] *)
Definition error (this : ObsRef) (err : Err) : M unit :=
  o ← deref this;
  if negb (isUnsubscribed o)
  then
    (if truthy (Handler.error (handlers o))
     then invoke this (Handler.error (handlers o)) (λ f, call_error f err)
     else mret ());;
    unsubscribe this
  else mret ().

(** [complete()]:
    [if (!this.isUnsubscribed) { if (this.handlers.complete) this.handlers.complete(); this.unsubscribe(); }] *)
Definition complete (this : ObsRef) : M unit :=
  o ← deref this;
  if negb (isUnsubscribed o)
  then
    (if truthy (Handler.complete (handlers o))
     then invoke this (Handler.complete (handlers o)) call_complete
     else mret ());;
    unsubscribe this
  else mret ().
End Methods.
End Observer.

(** ** class Observable<T> *)
Module Observable.
Section Methods.
Context {T Err Fn : Type}.
Local Abbreviation M := (M T Err Fn).

(** The single field: [_subscribe: (observer) => (() => void) | void]. *)
Record t := mk {
  _subscribe : ObsRef → M (option (Teardown Fn));
}.

(** The object returned by [subscribe]: [{ unsubscribe: () => void }]. *)
Record Subscription := mkSubscription {
  unsubscribe : M unit;
}.

(** [static from(values)]: the producer sends every value, completes, and
    returns a closure that logs. *)
Definition from (values : list T) : t :=
  mk (λ observer,
    forEach values (λ value, Observer.next observer value);;
    Observer.complete observer;;
    mret (Some (console_log "unsubscribed"))).

(** [subscribe(handlers)] *)
Definition subscribe (self : t) (handlers : Handler.t Fn) : M Subscription :=
  observer ← Observer.new handlers;
  unsubscribeFn ← _subscribe self observer;
  match unsubscribeFn with
  | Some fn => update observer (Observer.set__unsubscribe (Some fn))
  | None => mret ()
  end;;
  mret (mkSubscription (Observer.unsubscribe observer)).
End Methods.
Arguments t : clear implicits.
Arguments Subscription : clear implicits.
End Observable.

(** ** Callers of the two classes *)

Section Clients.
Context {T Err Fn : Type}.
Local Abbreviation M := (M T Err Fn).

(** What a producer can send to the observer it was given. *)
Inductive Signal :=
| emit_next (value : T)       (* observer.next(value) *)
| emit_error (err : Err)      (* observer.error(err) *)
| emit_complete.              (* observer.complete() *)

(** Everything the program can do to an existing observer: send it a
    signal, call [unsubscribe()] (what the handle returned by [subscribe]
    does), or assign its public field [_unsubscribe] (what [subscribe]
    does once the producer has returned). *)
Inductive Op :=
| signal (sg : Signal)
| op_unsubscribe
| op_register (t : Teardown Fn).

Definition send (observer : ObsRef) (sg : Signal) : M unit :=
  match sg with
  | emit_next value => Observer.next observer value
  | emit_error err => Observer.error observer err
  | emit_complete => Observer.complete observer
  end.

Definition exec (observer : ObsRef) (op : Op) : M unit :=
  match op with
  | signal sg => send observer sg
  | op_unsubscribe => Observer.unsubscribe observer
  | op_register t => update observer (Observer.set__unsubscribe (Some t))
  end.

(** A straight-line sequence of operations on one observer. *)
Definition run (observer : ObsRef) (ops : list Op) : M unit :=
  forEach ops (exec observer).

(** A sequence of operations on several observers, in the order in which
    they happen. *)
Definition play (schedule : list (ObsRef * Op)) : M unit :=
  forEach schedule (λ step, exec step.1 step.2).

(** An observable whose producer synchronously sends [emits], in order,
    and then returns [ret]: a teardown closure or nothing.  Observer
    methods return nothing and the flag is private, so a synchronous
    producer cannot branch on what the observer did; this form covers
    every pattern of next, error and complete signals. *)
Definition scripted (emits : list Signal) (ret : option (Teardown Fn))
  : Observable.t T Err Fn :=
  Observable.mk (λ observer, forEach emits (send observer);; mret ret).

(** The demonstration's second observable:
    [observer.next(a); observer.error(e); observer.next(b);] with no
    return value. *)
Definition erroringObservable (a b : T) (e : Err) : Observable.t T Err Fn :=
  Observable.mk (λ observer,
    Observer.next observer a;;
    Observer.error observer e;;
    Observer.next observer b;;
    mret None).

(** *** Reading a trace *)

Definition is_teardown (c : Call T Err Fn) : bool :=
  match c with call_teardown _ => true | _ => false end.

Definition is_handler_call (c : Call T Err Fn) : bool :=
  negb (is_teardown c).

(** The calls made by observer [r], in order. *)
Definition calls_of (r : ObsRef) (tr : list (ObsRef * Call T Err Fn))
  : list (Call T Err Fn) :=
  snd <$> List.filter (λ e, Nat.eqb e.1 r) tr.

(** How many times a teardown closure was run. *)
Definition teardown_count (tr : list (ObsRef * Call T Err Fn)) : nat :=
  length (List.filter (λ e, is_teardown e.2) tr).

(** The handler invocations in a trace. *)
Definition handler_calls (tr : list (ObsRef * Call T Err Fn))
  : list (ObsRef * Call T Err Fn) :=
  List.filter (λ e, is_handler_call e.2) tr.

(** The operations of a schedule that are aimed at observer [r]. *)
Definition ops_on (r : ObsRef) (schedule : list (ObsRef * Op)) : list Op :=
  snd <$> List.filter (λ e : ObsRef * Op, Nat.eqb e.1 r) schedule.

(** A schedule over two observers: each step says whether it is aimed at
    the first one ([true]) or at the second one ([false]). *)
Definition between (r1 r2 : ObsRef) (steps : list (bool * Op))
  : list (ObsRef * Op) :=
  (λ st : bool * Op, (if st.1 then r1 else r2, st.2)) <$> steps.

(** The steps of such a schedule that are aimed at one of the two. *)
Definition only (first : bool) (steps : list (bool * Op)) : list (bool * Op) :=
  List.filter (λ st : bool * Op, Bool.eqb st.1 first) steps.

Definition is_terminal_signal (sg : Signal) : bool :=
  match sg with emit_next _ => false | _ => true end.

(** The handler call that a signal stands for, under a given set of
    handlers: none when the handler for that signal is missing. *)
Definition handler_call_of (h : Handler.t Fn) (sg : Signal)
  : option (Call T Err Fn) :=
  match sg with
  | emit_next v => (λ f, call_next f v) <$> Handler.next h
  | emit_error e => (λ f, call_error f e) <$> Handler.error h
  | emit_complete => call_complete <$> Handler.complete h
  end.

(** What a subscription with handlers [h] is to receive from a producer that
    sends [emits]: the emission sequence, signal by signal and in order,
    each signal as the call of its handler, up to and including the first
    [error] or [complete].  This is written from the wording of the
    property, not from the program; it is what [subscribe] is compared
    with. *)
Fixpoint received (h : Handler.t Fn) (emits : list Signal)
  : list (Call T Err Fn) :=
  match emits with
  | [] => []
  | sg :: rest =>
      option_list (handler_call_of h sg)
      ++ (if is_terminal_signal sg then [] else received h rest)
  end.

(** Operations after which the spec calls an observer terminated:
    [error], [complete] and [unsubscribe]. *)
Definition is_terminal (op : Op) : bool :=
  match op with
  | signal sg => is_terminal_signal sg
  | op_unsubscribe => true
  | op_register _ => false
  end.

(** The value of [isUnsubscribed] of observer [r], if [r] is allocated. *)
Definition flag (r : ObsRef) (s : Store T Err Fn) : option bool :=
  isUnsubscribed <$> heap s !! r.

(** The value of the flag after each operation of [ops] in turn. *)
Fixpoint history (r : ObsRef) (ops : list Op) (s : Store T Err Fn)
  : list (option bool) :=
  match ops with
  | [] => []
  | op :: ops' =>
      let s' := (exec r op s).2 in
      flag r s' :: history r ops' s'
  end.

(** *** One method call, seen from the object it is made on

    [fired op o] lists the foreign calls that [op] makes on an observer
    whose fields are [o], and [after op o] gives the fields afterwards.
    They are not part of the program: [exec_spec] below proves that they
    describe what the methods do. *)
Definition fired (op : Op) (o : Observer Fn) : list (Call T Err Fn) :=
  match op with
  | signal (emit_next v) =>
      if isUnsubscribed o then []
      else option_list ((λ f, call_next f v) <$> Handler.next (handlers o))
  | signal (emit_error e) =>
      if isUnsubscribed o then []
      else option_list ((λ f, call_error f e) <$> Handler.error (handlers o))
           ++ option_list (call_teardown <$> _unsubscribe o)
  | signal emit_complete =>
      if isUnsubscribed o then []
      else option_list (call_complete <$> Handler.complete (handlers o))
           ++ option_list (call_teardown <$> _unsubscribe o)
  | op_unsubscribe => option_list (call_teardown <$> _unsubscribe o)
  | op_register _ => []
  end.

Definition after (op : Op) (o : Observer Fn) : Observer Fn :=
  match op with
  | signal (emit_next _) => o
  | signal _ => Observer.set_isUnsubscribed true o
  | op_unsubscribe => Observer.set_isUnsubscribed true o
  | op_register t => Observer.set__unsubscribe (Some t) o
  end.

Fixpoint fired_all (ops : list Op) (o : Observer Fn) : list (Call T Err Fn) :=
  match ops with
  | [] => []
  | op :: ops' => fired op o ++ fired_all ops' (after op o)
  end.

Definition after_all (ops : list Op) (o : Observer Fn) : Observer Fn :=
  fold_left (λ o op, after op o) ops o.
(** The store after an operation on [r] that leaves [o'] behind and makes
    the calls [cs]. *)
Definition stepped (s : Store T Err Fn) (r : ObsRef) (o' : Observer Fn)
    (cs : list (Call T Err Fn)) : Store T Err Fn :=
  mkStore (<[r := o']> (heap s)) (trace s ++ ((r,.) <$> cs)).
End Clients.

Arguments Signal : clear implicits.
Arguments Op : clear implicits.

(** ** The demonstration, and the scenarios of the specification *)

(** Nothing allocated, nothing called. *)
Definition empty_store : Store Z string string := mkStore [] [].

(** [{}] *)
Definition no_handlers {Fn : Type} : Handler.t Fn := Handler.mk None None None.

(** [{ next: collect, complete: markDone }] *)
Definition collect_and_markDone : Handler.t string :=
  Handler.mk (Some "collect") None (Some "markDone").

(** [Observable.from([1, 2, 3]).subscribe({ next: collect, complete: markDone })] *)
Definition scenario_A : M Z string string (Observable.Subscription Z string string) :=
  Observable.subscribe (Observable.from [1; 2; 3]%Z) collect_and_markDone.

(** [const subscription = Observable.from([1, 2, 3]).subscribe({});
     subscription.unsubscribe(); subscription.unsubscribe();] *)
Definition unsubscribe_twice : M Z string string unit :=
  subscription ← Observable.subscribe (Observable.from [1; 2; 3]%Z) no_handlers;
  Observable.unsubscribe subscription;;
  Observable.unsubscribe subscription.

(** A store with one live observer that has all three handlers and a
    registered teardown, and the same store with that observer already
    unsubscribed. *)
Definition all_handlers : Handler.t string :=
  Handler.mk (Some "handleRequest") (Some "handleError") (Some "handleComplete").

Definition live_store : Store Z string string :=
  mkStore [mkObserver all_handlers false (Some (teardown_fn "cleanup"))] [].

Definition dead_store : Store Z string string :=
  mkStore [mkObserver all_handlers true (Some (teardown_fn "cleanup"))] [].

(** Scenario B, the shape of the demonstration's [erroringObservable]:
    a producer that calls [next(1)], [error("x")], [next(2)]. *)
Definition scenario_B : M Z string string (Observable.Subscription Z string string) :=
  Observable.subscribe (erroringObservable 1%Z 2%Z "x") all_handlers.

(** An observable whose producer has state of its own:
    [let used = false;
     new Observable(observer => {
       if (!used) { used = true; observer.next(1); }
       observer.complete();
     })].
    The store has no cell for the captured variable [used].  References are
    handed out in allocation order, so for an observable made in a store
    without observers the producer has run before exactly when the observer
    it is given is not observer 0; the producer reads [used] off that. *)
Definition one_shot : Observable.t Z string string :=
  Observable.mk (λ observer,
    (if Nat.eqb observer 0 then Observer.next observer 1%Z else mret ());;
    Observer.complete observer;;
    mret None).

(** [one_shot.subscribe({next: collect, complete: markDone});
     one_shot.subscribe({next: collect, complete: markDone});] *)
Definition one_shot_twice : M Z string string unit :=
  Observable.subscribe one_shot collect_and_markDone;;
  Observable.subscribe one_shot collect_and_markDone;;
  mret ().

(** ** Further callers *)

Section MoreClients.
Context {T Err Fn : Type}.

Definition is_unsubscribe (op : Op T Err Fn) : bool :=
  match op with op_unsubscribe => true | _ => false end.

Definition is_register (op : Op T Err Fn) : bool :=
  match op with op_register _ => true | _ => false end.

(** The signals of a producer up to and including its first [error] or
    [complete]. *)
Fixpoint until_terminal (emits : list (Signal T Err)) : list (Signal T Err) :=
  match emits with
  | [] => []
  | sg :: rest =>
      if is_terminal_signal sg then [sg] else sg :: until_terminal rest
  end.

(** The calls that a list of values makes on an optional [next] handler. *)
Definition next_calls (f : option Fn) (values : list T) : list (Call T Err Fn) :=
  match f with
  | Some fn => call_next fn <$> values
  | None => []
  end.
End MoreClients.

(** The script at the end of the program:
    [const requests$ = Observable.from(requestsMock);
     const subscription = requests$.subscribe({ next: handleRequest,
       error: handleError, complete: handleComplete });
     subscription.unsubscribe();]
    for any array of requests. *)
Definition execution {T Err : Type} (requestsMock : list T) : M T Err string unit :=
  subscription ← Observable.subscribe (Observable.from requestsMock) all_handlers;
  Observable.unsubscribe subscription.

(** * Properties *)

(** ** The monad and the store primitives *)

Section Primitives.
Context {T Err Fn : Type}.
Local Abbreviation M := (M T Err Fn).
Local Abbreviation Store := (Store T Err Fn).
Implicit Types (s : Store) (r : ObsRef) (o : Observer Fn).

Lemma bind_Return {A B} (m : M A) (k : A → M B) s a s' :
  m s = (Return a, s') → (m ≫= k) s = k a s'.
Proof. intros Hm. unfold mbind, M_bind. by rewrite Hm. Qed.

Lemma bind_Throw {A B} (m : M A) (k : A → M B) s e s' :
  m s = (Throw e, s') → (m ≫= k) s = (Throw e, s').
Proof. intros Hm. unfold mbind, M_bind. by rewrite Hm. Qed.

Lemma ret_eq {A} (a : A) s : (mret a : M A) s = (Return a, s).
Proof. done. Qed.

Lemma store_eta s : mkStore (heap s) (trace s) = s.
Proof. by destruct s. Qed.

Lemma deref_ok r o s : heap s !! r = Some o → deref r s = (Return o, s).
Proof. intros H. unfold deref. by rewrite H. Qed.

Lemma update_ok r o f s :
  heap s !! r = Some o →
  update r f s = (Return (), mkStore (<[r := f o]> (heap s)) (trace s)).
Proof. intros H. unfold update. by rewrite H. Qed.

Lemma lookup_updated r o o' (h : list (Observer Fn)) :
  h !! r = Some o → <[r := o']> h !! r = Some o'.
Proof. intros H. apply list_lookup_insert_eq. by eapply lookup_lt_Some. Qed.

Lemma set_flag_idem o :
  isUnsubscribed o = true → Observer.set_isUnsubscribed true o = o.
Proof. destruct o as [h b t]; simpl. by intros ->. Qed.

Lemma forEach_app {A} (xs ys : list A) (body : A → M unit) s :
  forEach (xs ++ ys) body s = (forEach xs body;; forEach ys body) s.
Proof.
  revert s. induction xs as [|x xs IH]; intros s; simpl.
  - done.
  - unfold mbind, M_bind in *.
    destruct (body x s) as [[[]|e] s1]; [apply IH | done].
Qed.
End Primitives.

(** ** Every method call agrees with its object-level summary *)

Section Summary.
Context {T Err Fn : Type}.
Local Abbreviation M := (M T Err Fn).
Local Abbreviation Store := (Store T Err Fn).
Implicit Types (s : Store) (r : ObsRef) (o : Observer Fn) (op : Op T Err Fn).

Lemma stepped_nothing s r o :
  heap s !! r = Some o → stepped s r o [] = s.
Proof.
  intros H. unfold stepped. simpl. rewrite app_nil_r, list_insert_id by done.
  apply store_eta.
Qed.

Lemma unsubscribe_spec s r o :
  heap s !! r = Some o →
  Observer.unsubscribe r s =
    (Return (), stepped s r (Observer.set_isUnsubscribed true o)
                  (option_list (call_teardown <$> _unsubscribe o))).
Proof.
  intros H. unfold Observer.unsubscribe.
  erewrite bind_Return by (by apply update_ok).
  erewrite bind_Return by (apply deref_ok; simpl; by eapply lookup_updated).
  unfold stepped. destruct o as [h b [t|]]; simpl.
  - done.
  - by rewrite ret_eq, app_nil_r.
Qed.

Lemma exec_spec s r o op :
  heap s !! r = Some o →
  exec r op s = (Return (), stepped s r (after op o) (fired op o)).
Proof.
  intros H. destruct op as [[v|e|]| |t]; simpl.
  - unfold Observer.next. erewrite bind_Return by (by apply deref_ok).
    destruct o as [[hn he hc] [] td]; simpl in *;
      destruct hn as [f|]; simpl; rewrite ?ret_eq;
      try (by erewrite stepped_nothing by done).
    unfold stepped. simpl. by rewrite list_insert_id by done.
  - unfold Observer.error. erewrite bind_Return by (by apply deref_ok).
    destruct (isUnsubscribed o) eqn:Hb; simpl.
    + rewrite ret_eq, set_flag_idem by done. by erewrite stepped_nothing.
    + destruct (Handler.error (handlers o)) as [f|] eqn:Hf; simpl.
      * erewrite bind_Return by done.
        erewrite unsubscribe_spec by done. unfold stepped. simpl.
        by rewrite <- app_assoc.
      * erewrite bind_Return by (by rewrite ret_eq).
        by erewrite unsubscribe_spec by done.
  - unfold Observer.complete. erewrite bind_Return by (by apply deref_ok).
    destruct (isUnsubscribed o) eqn:Hb; simpl.
    + rewrite ret_eq, set_flag_idem by done. by erewrite stepped_nothing.
    + destruct (Handler.complete (handlers o)) as [f|] eqn:Hf; simpl.
      * erewrite bind_Return by done.
        erewrite unsubscribe_spec by done. unfold stepped. simpl.
        by rewrite <- app_assoc.
      * erewrite bind_Return by (by rewrite ret_eq).
        by erewrite unsubscribe_spec by done.
  - by apply unsubscribe_spec.
  - unfold stepped. simpl. rewrite app_nil_r. by apply update_ok.
Qed.
End Summary.

(** ** Sequences of calls, and [subscribe] *)

Section Sequences.
Context {T Err Fn : Type}.
Local Abbreviation M := (M T Err Fn).
Local Abbreviation Store := (Store T Err Fn).
Local Abbreviation Op := (Op T Err Fn).
Local Abbreviation Signal := (Signal T Err).
Implicit Types (s : Store) (r : ObsRef) (o : Observer Fn) (op : Op)
  (ops : list Op) (h : Handler.t Fn).

Lemma stepped_lookup s r o o' cs :
  heap s !! r = Some o → heap (stepped s r o' cs) !! r = Some o'.
Proof. intros H. simpl. by eapply lookup_updated. Qed.

Lemma stepped_lookup_ne s r r' o' cs :
  r ≠ r' → heap (stepped s r o' cs) !! r' = heap s !! r'.
Proof. intros H. simpl. by apply list_lookup_insert_ne. Qed.

Lemma stepped_stepped s r o1 o2 cs1 cs2 :
  stepped (stepped s r o1 cs1) r o2 cs2 = stepped s r o2 (cs1 ++ cs2).
Proof.
  unfold stepped. simpl.
  by rewrite list_insert_insert_eq, fmap_app, app_assoc.
Qed.

Lemma run_spec ops : ∀ s r o,
  heap s !! r = Some o →
  run r ops s = (Return (), stepped s r (after_all ops o) (fired_all ops o)).
Proof.
  induction ops as [|op ops IH]; intros s r o H.
  - unfold run. simpl. by rewrite ret_eq, stepped_nothing.
  - unfold run. simpl. erewrite bind_Return by (by apply exec_spec).
    fold (run r ops). erewrite IH by (by eapply stepped_lookup).
    by rewrite stepped_stepped.
Qed.

Lemma run_app r ops1 ops2 s :
  run r (ops1 ++ ops2) s = (run r ops1;; run r ops2) s.
Proof. apply forEach_app. Qed.

Lemma after_all_cons op ops o :
  after_all (op :: ops) o = after_all ops (after op o).
Proof. done. Qed.

Lemma fired_all_cons op ops o :
  fired_all (op :: ops) o = fired op o ++ fired_all ops (after op o).
Proof. done. Qed.

Lemma after_all_app ops1 ops2 o :
  after_all (ops1 ++ ops2) o = after_all ops2 (after_all ops1 o).
Proof. apply fold_left_app. Qed.

Lemma fired_all_app ops1 : ∀ ops2 o,
  fired_all (ops1 ++ ops2) o
  = fired_all ops1 o ++ fired_all ops2 (after_all ops1 o).
Proof.
  induction ops1 as [|op ops1 IH]; intros ops2 o; simpl; [done|].
  by rewrite IH, app_assoc.
Qed.

Lemma forEach_send r (emits : list Signal) s :
  forEach emits (send r) s = run r (signal <$> emits) s.
Proof.
  revert s. induction emits as [|sg emits IH]; intros s; [done|].
  unfold run. simpl. unfold mbind, M_bind.
  destruct (send r sg s) as [[[]|e] s1]; [apply IH | done].
Qed.

Lemma times_unsubscribe n : ∀ r s,
  times n (Observer.unsubscribe r) s
  = run r (replicate n (op_unsubscribe : Op)) s.
Proof.
  induction n as [|n IH]; intros r s; [done|].
  unfold run. simpl. unfold mbind, M_bind.
  destruct (Observer.unsubscribe r s) as [[[]|e] s1]; [apply IH | done].
Qed.

(** *** Fields are only ever changed in the ways the code shows *)

Lemma after_handlers op o : handlers (after op o) = handlers o.
Proof. by destruct op as [[| |]| |]. Qed.

Lemma after_all_handlers ops : ∀ o, handlers (after_all ops o) = handlers o.
Proof.
  induction ops as [|op ops IH]; intros o; [done|].
  simpl. by rewrite IH, after_handlers.
Qed.

Lemma after_flag_stays op o :
  isUnsubscribed o = true → isUnsubscribed (after op o) = true.
Proof. by destruct op as [[| |]| |]. Qed.

Lemma after_all_flag_stays ops : ∀ o,
  isUnsubscribed o = true → isUnsubscribed (after_all ops o) = true.
Proof.
  induction ops as [|op ops IH]; intros o H; [done|].
  simpl. by apply IH, after_flag_stays.
Qed.

Lemma after_terminal op o :
  is_terminal op = true → isUnsubscribed (after op o) = true.
Proof. by destruct op as [[| |]| |]. Qed.

Lemma after_all_terminal ops : ∀ o,
  existsb is_terminal ops = true → isUnsubscribed (after_all ops o) = true.
Proof.
  induction ops as [|op ops IH]; intros o H; [done|].
  simpl in *. apply orb_true_iff in H as [H|H].
  - by apply after_all_flag_stays, after_terminal.
  - by apply IH.
Qed.

Lemma signal_silent (sg : Signal) o :
  isUnsubscribed o = true →
  fired (signal sg) o = [] ∧ after (signal sg) o = o.
Proof.
  intros H. destruct sg; simpl; rewrite ?H, ?set_flag_idem; done.
Qed.

Lemma signals_keep_slot (emits : list Signal) : ∀ o,
  _unsubscribe (after_all (signal <$> emits) o) = _unsubscribe o.
Proof.
  induction emits as [|sg emits IH]; intros o; [done|].
  simpl. rewrite IH. by destruct sg.
Qed.

(** *** [subscribe] on a scripted observable *)

Lemma insert_last (l : list (Observer Fn)) o o' :
  <[length l := o']> (l ++ [o]) = l ++ [o'].
Proof.
  replace (length l) with (length l + 0) by lia. by rewrite insert_app_r.
Qed.

Lemma lookup_last (l : list (Observer Fn)) o :
  (l ++ [o]) !! length l = Some o.
Proof. apply list_lookup_middle. done. Qed.

(** The fields of the observer that [subscribe] leaves behind. *)
Lemma subscribe_scripted (emits : list Signal) ret h s :
  let r := length (heap s) in
  let fresh := mkObserver h false None in
  let o := after_all (signal <$> emits) fresh in
  Observable.subscribe (scripted emits ret) h s
  = (Return (Observable.mkSubscription (Observer.unsubscribe r)),
     mkStore
       (heap s ++ [mkObserver h (isUnsubscribed o) ret])
       (trace s ++ ((r,.) <$> fired_all (signal <$> emits) fresh))).
Proof.
  intros r fresh o. unfold Observable.subscribe, Observer.new.
  erewrite bind_Return by done. simpl. fold r fresh.
  set (s1 := mkStore (heap s ++ [fresh]) (trace s)).
  assert (heap s1 !! r = Some fresh) as H1 by apply lookup_last.
  erewrite (bind_Return (_ ≫= _)); last first.
  { erewrite bind_Return by (rewrite forEach_send; by apply run_spec).
    apply ret_eq. }
  fold o.
  assert (handlers o = h) as Hh by apply after_all_handlers.
  assert (_unsubscribe o = None) as Ht by apply signals_keep_slot.
  destruct ret as [t|].
  - erewrite bind_Return by (apply update_ok; by eapply stepped_lookup).
    rewrite ret_eq. simpl. rewrite list_insert_insert_eq.
    subst r. rewrite insert_last.
    unfold Observer.set__unsubscribe. by rewrite Hh.
  - erewrite bind_Return by apply ret_eq. rewrite ret_eq.
    unfold stepped. simpl. subst r. rewrite insert_last.
    destruct o; simpl in *. by subst.
Qed.

Lemma from_scripted (values : list T) r s :
  Observable._subscribe (Observable.from values) r s
  = Observable._subscribe
      (scripted ((emit_next <$> values) ++ [emit_complete])
                (Some (console_log "unsubscribed"))) r s.
Proof.
  assert (∀ s', forEach values (λ value, Observer.next r value) s'
                = forEach (emit_next <$> values) (send r) s') as Hn.
  { induction values as [|v vs IH]; intros s'; [done|].
    simpl. unfold mbind, M_bind.
    destruct (Observer.next r v s') as [[[]|e] s1]; [apply IH | done]. }
  unfold Observable.from, scripted. cbn [Observable._subscribe].
  unfold mbind, M_bind. rewrite forEach_app, Hn.
  unfold mbind, M_bind.
  destruct (forEach (emit_next <$> values) (send r) s) as [[[]|e] s1]; [|done].
  simpl. unfold mbind, M_bind.
  by destruct (Observer.complete r s1) as [[[]|e] s2].
Qed.

Lemma subscribe_ext (a b : Observable.t T Err Fn) h s :
  (∀ r s', Observable._subscribe a r s' = Observable._subscribe b r s') →
  Observable.subscribe a h s = Observable.subscribe b h s.
Proof.
  intros H. unfold Observable.subscribe, mbind, M_bind.
  destruct (Observer.new h s) as [[r|e] s1]; [|done]. by rewrite H.
Qed.
End Sequences.

(** ** Counting teardown calls *)

Section Counting.
Context {T Err Fn : Type}.
Local Abbreviation Store := (Store T Err Fn).
Local Abbreviation Op := (Op T Err Fn).
Local Abbreviation Signal := (Signal T Err).
Implicit Types (r : ObsRef) (o : Observer Fn)
  (tr : list (ObsRef * Call T Err Fn)).

Lemma teardown_count_app tr1 tr2 :
  teardown_count (tr1 ++ tr2) = teardown_count tr1 + teardown_count tr2.
Proof. unfold teardown_count. by rewrite List.filter_app, length_app. Qed.

Lemma teardown_count_replicate n r (t : Teardown Fn) :
  teardown_count (replicate n (r, call_teardown t : Call T Err Fn)) = n.
Proof. induction n as [|n IH]; [done|]. unfold teardown_count in *. simpl. by rewrite IH. Qed.

Lemma fired_unsubscribes n : ∀ o t,
  _unsubscribe o = Some t →
  fired_all (replicate n (op_unsubscribe : Op)) o
  = replicate n (call_teardown t).
Proof.
  induction n as [|n IH]; intros o t H; [done|].
  simpl. rewrite H. simpl. f_equal. by apply IH.
Qed.

Lemma fired_unsubscribes_none n : ∀ o,
  _unsubscribe o = None →
  fired_all (replicate n (op_unsubscribe : Op)) o = [].
Proof.
  induction n as [|n IH]; intros o H; [done|].
  simpl. rewrite H. simpl. by apply IH.
Qed.

Lemma signals_silent (emits : list Signal) : ∀ o,
  isUnsubscribed o = true →
  fired_all (signal <$> emits) o = [] ∧ after_all (signal <$> emits) o = o.
Proof.
  induction emits as [|sg emits IH]; intros o H; [done|].
  rewrite fmap_cons, fired_all_cons, after_all_cons.
  destruct (signal_silent sg o H) as [-> ->]. by apply IH.
Qed.

Lemma fired_from (values : list T) (fn fc : Fn) fe t :
  fired_all (signal <$> ((emit_next <$> values) ++ [emit_complete : Signal]))
    (mkObserver (Handler.mk (Some fn) fe (Some fc)) false t)
  = (call_next fn <$> values) ++ call_complete fc
      :: option_list (call_teardown <$> t).
Proof.
  induction values as [|v vs IH].
  - simpl. by rewrite app_nil_r.
  - rewrite fmap_cons. simpl ((emit_next v :: _) ++ _).
    rewrite fmap_cons, fired_all_cons. cbn [fired after]. simpl.
    by rewrite IH.
Qed.
End Counting.

(** ** Unsubscribing more than once *)

Section Unsubscribe.
Context {T Err Fn : Type}.
Local Abbreviation Store := (Store T Err Fn).

(** C1, as amended.  Subscribe to any scripted observable with any
    handlers.  Calling the returned handle's [unsubscribe()] [N] times
    never throws, and it runs the registered teardown once on every call,
    [N] times in all (never, if the producer returned no teardown): the
    second call is not a no-op. *)
Theorem unsubscribe_runs_teardown_on_every_call
    (emits : list (Signal T Err)) (ret : option (Teardown Fn))
    (h : Handler.t Fn) (s0 : Store) :
  ∃ sub s1,
    Observable.subscribe (scripted emits ret) h s0 = (Return sub, s1) ∧
    ∀ N, ∃ s2,
      times N (Observable.unsubscribe sub) s1 = (Return (), s2) ∧
      match ret with
      | Some t =>
          trace s2 = trace s1 ++ replicate N (length (heap s0), call_teardown t) ∧
          teardown_count (trace s2) = teardown_count (trace s1) + N
      | None => trace s2 = trace s1
      end.
Proof.
  do 2 eexists. split; [apply subscribe_scripted|]. intros N.
  cbn [Observable.unsubscribe]. eexists. split.
  - rewrite times_unsubscribe. apply run_spec. apply lookup_last.
  - cbn [stepped trace]. destruct ret as [t|].
    + erewrite fired_unsubscribes by done. rewrite fmap_replicate.
      split; [done|]. by rewrite teardown_count_app, teardown_count_replicate.
    + rewrite fired_unsubscribes_none by done. apply app_nil_r.
Qed.
End Unsubscribe.

(** C1, as stated, fails: after [from([1,2,3]).subscribe({})], two calls of
    [unsubscribe()] run the teardown twice, not at most once. *)
Lemma second_unsubscribe_runs_teardown_again :
  ∃ s, unsubscribe_twice empty_store = (Return (), s) ∧
       teardown_count (trace s) = 2 ∧
       ¬ teardown_count (trace s) ≤ 1.
Proof.
  eexists. split; [vm_compute; reflexivity|]. split; [reflexivity|].
  vm_compute. lia.
Qed.

(** ** [Observable.from] *)

Section From.
Context {T Err Fn : Type}.
Local Abbreviation Store := (Store T Err Fn).

Lemma subscribe_from (values : list T) (h : Handler.t Fn) (s : Store) :
  Observable.subscribe (Observable.from values) h s
  = Observable.subscribe
      (scripted ((emit_next <$> values) ++ [emit_complete])
                (Some (console_log "unsubscribed"))) h s.
Proof. apply subscribe_ext. intros r s'. apply from_scripted. Qed.

(** C5.  Subscribing to [from(values)] with a [next] and a [complete]
    handler (and with or without an [error] handler) calls [next] with
    each element of [values] in list order, then calls [complete] once,
    and makes no other call: in particular no [error] call. *)
Theorem from_emits_in_order_then_completes
    (values : list T) (fn fc : Fn) (fe : option Fn) (s0 : Store) :
  ∃ sub s1,
    Observable.subscribe (Observable.from values)
      (Handler.mk (Some fn) fe (Some fc)) s0 = (Return sub, s1) ∧
    trace s1
    = trace s0
      ++ ((length (heap s0),.) <$> (call_next fn <$> values) ++ [call_complete fc]).
Proof.
  do 2 eexists. split.
  - rewrite subscribe_from. apply subscribe_scripted.
  - cbn [trace]. by rewrite fired_from.
Qed.

(** C10.  In [from(values).subscribe(h)] the producer's [complete()] runs
    while the observer's [_unsubscribe] is still undefined, so that call
    makes the [complete] handler call (if there is a handler) and no
    teardown call; [subscribe] as a whole makes no teardown call and
    leaves the observer unsubscribed with the logging closure registered.
    Afterwards no signal does anything, and one call of the handle's
    [unsubscribe()] is what runs the teardown. *)
Theorem from_completes_before_teardown_is_registered
    (values : list T) (h : Handler.t Fn) (s0 : Store) :
  let r := length (heap s0) in
  ∃ s_new s_sent s_done sub s1 s2,
    Observer.new h s0 = (Return r, s_new) ∧
    forEach values (λ value, Observer.next r value) s_new = (Return (), s_sent) ∧
    _unsubscribe <$> heap s_sent !! r = Some None ∧
    Observer.complete r s_sent = (Return (), s_done) ∧
    trace s_done
    = trace s_sent ++ ((r,.) <$> option_list (call_complete <$> Handler.complete h)) ∧
    Observable.subscribe (Observable.from values) h s0 = (Return sub, s1) ∧
    trace s1 = trace s_done ∧
    teardown_count (trace s1) = teardown_count (trace s0) ∧
    heap s1 !! r = Some (mkObserver h true (Some (console_log "unsubscribed"))) ∧
    (∀ emits : list (Signal T Err), forEach emits (send r) s1 = (Return (), s1)) ∧
    Observable.unsubscribe sub s1 = (Return (), s2) ∧
    trace s2 = trace s1 ++ [(r, call_teardown (console_log "unsubscribed"))].
Proof.
  intros r.
  set (fresh := mkObserver h false None).
  set (s_new := mkStore (heap s0 ++ [fresh]) (trace s0)).
  set (nexts := signal <$> (emit_next <$> values) : list (Op T Err Fn)).
  assert (heap s_new !! r = Some fresh) as Hnew by apply lookup_last.
  assert (after_all nexts fresh = fresh) as Hafter.
  { subst nexts. clear. generalize fresh.
    induction values as [|v vs IH]; intros o; [done|]. apply IH. }
  assert (forEach values (λ value, Observer.next r value) s_new
          = (Return (), stepped s_new r fresh (fired_all nexts fresh))) as Hsent.
  { transitivity (run r nexts s_new).
    - clear. generalize s_new. induction values as [|v vs IH]; intros s; [done|].
      unfold run. simpl. unfold mbind, M_bind.
      destruct (Observer.next r v s) as [[[]|e] s']; [apply IH | done].
    - erewrite run_spec by done. by rewrite Hafter. }
  set (s_sent := stepped s_new r fresh (fired_all nexts fresh)) in *.
  assert (heap s_sent !! r = Some fresh) as Hs by (by eapply stepped_lookup).
  pose proof (exec_spec s_sent r fresh (signal emit_complete) Hs) as Hdone.
  pose proof (subscribe_scripted ((emit_next <$> values) ++ [emit_complete])
                (Some (console_log "unsubscribed")) h s0) as Hsub.
  cbn zeta in Hsub. rewrite <- subscribe_from in Hsub.
  rewrite fmap_app, after_all_app, fired_all_app in Hsub.
  fold nexts fresh r in Hsub. rewrite Hafter in Hsub.
  eexists s_new, s_sent, _, _, _, _.
  split; [done|]. split; [exact Hsent|]. split; [by rewrite Hs|].
  split; [exact Hdone|]. split; [simpl; by rewrite app_nil_r|].
  split; [exact Hsub|]. cbn [trace stepped after fired_all fired fmap list_fmap].
  simpl isUnsubscribed. simpl _unsubscribe. simpl (handlers fresh).
  rewrite !app_nil_r.
  split; [by rewrite fmap_app, app_assoc|].
  split.
  { rewrite !teardown_count_app. 
    assert (∀ cs : list (Call T Err Fn),
               Forall (λ c, is_teardown c = false) cs →
               teardown_count ((r,.) <$> cs) = 0) as Hz.
    { clear. induction 1 as [|c cs Hc _ IH]; [done|].
      unfold teardown_count in *. simpl. by rewrite Hc. }
    rewrite Hz; [lia|]. apply Forall_app. split.
    - subst nexts. clear. generalize fresh.
      induction values as [|v vs IH]; intros o; [by constructor|].
      rewrite !fmap_cons, fired_all_cons. apply Forall_app. split; [|apply IH].
      simpl. destruct (isUnsubscribed o); [by constructor|].
      destruct (Handler.next (handlers o)); by repeat constructor.
    - destruct (Handler.complete h); by repeat constructor. }
  split; [apply lookup_last|].
  set (s1 := mkStore _ _).
  assert (heap s1 !! r = Some (mkObserver h true (Some (console_log "unsubscribed"))))
    as H1 by apply lookup_last.
  split.
  { intros emits. rewrite forEach_send. erewrite run_spec by exact H1.
    destruct (signals_silent emits
                (mkObserver h true (Some (console_log "unsubscribed"))) eq_refl)
      as [-> ->].
    by rewrite stepped_nothing. }
  split.
  { cbn [Observable.unsubscribe]. by apply unsubscribe_spec. }
  done.
Qed.
End From.

(** C2, as amended.  [from([1,2,3]).subscribe({next: collect, complete:
    markDone})] calls [collect] with 1, 2 and 3 in that order and then
    [markDone] once; [subscribe] itself does not run the producer's
    teardown.  The teardown runs once, after the [complete] call, when the
    caller then calls the returned handle's [unsubscribe()] once. *)
Theorem scenario_A_calls (s0 : Store Z string string) :
  let r := length (heap s0) in
  ∃ sub s1 s2,
    scenario_A s0 = (Return sub, s1) ∧
    trace s1
    = trace s0 ++ [ (r, call_next "collect" 1%Z); (r, call_next "collect" 2%Z);
                    (r, call_next "collect" 3%Z); (r, call_complete "markDone") ] ∧
    Observable.unsubscribe sub s1 = (Return (), s2) ∧
    trace s2 = trace s1 ++ [ (r, call_teardown (console_log "unsubscribed")) ].
Proof.
  intros r. unfold scenario_A. do 3 eexists. split.
  - rewrite subscribe_from. apply subscribe_scripted.
  - split; [done|]. cbn [Observable.unsubscribe]. split.
    + apply unsubscribe_spec. apply lookup_last.
    + done.
Qed.

(** C2, as stated, fails: when [subscribe] returns in Scenario A the
    teardown has not been run once, it has not been run at all. *)
Lemma scenario_A_subscribe_runs_no_teardown :
  ∃ sub s1, scenario_A empty_store = (Return sub, s1) ∧
            teardown_count (trace s1) = 0 ∧
            teardown_count (trace s1) ≠ 1.
Proof.
  do 2 eexists. split; [vm_compute; reflexivity|]. split; [reflexivity|].
  vm_compute. lia.
Qed.

(** ** The life cycle of one observer *)

Section LifeCycle.
Context {T Err Fn : Type}.
Local Abbreviation Store := (Store T Err Fn).
Local Abbreviation Op := (Op T Err Fn).
Local Abbreviation Signal := (Signal T Err).
Implicit Types (s : Store) (r : ObsRef) (o : Observer Fn).

Lemma send_when_unsubscribed s r o (sg : Signal) :
  heap s !! r = Some o → isUnsubscribed o = true →
  send r sg s = (Return (), s).
Proof.
  intros H Hb. change (send r sg s) with (exec r (signal sg) s).
  erewrite exec_spec by done.
  destruct (signal_silent sg o Hb) as [-> ->]. by rewrite stepped_nothing.
Qed.

Lemma run_terminal s r o (pre : list Op) :
  heap s !! r = Some o →
  existsb is_terminal pre = true →
  ∃ s' o',
    run r pre s = (Return (), s') ∧
    heap s' !! r = Some o' ∧
    isUnsubscribed o' = true.
Proof.
  intros H Hpre. do 2 eexists. split; [by apply run_spec|]. split.
  - by eapply stepped_lookup.
  - by apply after_all_terminal.
Qed.

Lemma run_snoc r (ops : list Op) (op : Op) s s' :
  run r ops s = (Return (), s') →
  run r (ops ++ [op]) s = (exec r op;; mret ()) s'.
Proof. intros H. rewrite run_app. by erewrite bind_Return by exact H. Qed.

(** C3.  Take any allocated observer and any sequence [pre] of
    operations on it (signals, [unsubscribe()] calls, assignments of the
    teardown slot) in which [error], [complete] or [unsubscribe] occurs at
    least once.  The sequence returns normally, and any signal sent after
    it returns normally and leaves the whole store as it was: no handler
    is called, no teardown is run, no field changes. *)
Theorem silent_after_terminal s r o (pre : list Op) (sg : Signal) :
  heap s !! r = Some o →
  existsb is_terminal pre = true →
  ∃ s',
    run r pre s = (Return (), s') ∧
    send r sg s' = (Return (), s') ∧
    run r (pre ++ [signal sg]) s = (Return (), s').
Proof.
  intros H Hpre.
  destruct (run_terminal s r o pre H Hpre) as (s' & o' & Hrun & H' & Hb).
  pose proof (send_when_unsubscribed s' r o' sg H' Hb) as Hsend.
  exists s'. split; [exact Hrun|]. split; [exact Hsend|].
  rewrite (run_snoc r pre (signal sg) s s' Hrun).
  by erewrite bind_Return by exact Hsend.
Qed.

(** C4.  On any allocated observer, once [error(e)] has been called, a
    later [complete()] changes nothing, whatever was done to the observer
    in between; and the same with the two exchanged.  If the observer was
    not unsubscribed, the first of the two calls makes exactly the call of
    its own handler (when that handler is present) followed by the
    teardown call (when a teardown is registered), and the second one,
    called right after it, returns with the store unchanged. *)
Theorem first_terminal_signal_wins s r o (e : Err) :
  heap s !! r = Some o →
  (∀ mid : list Op,
      run r (signal (emit_error e) :: mid ++ [signal emit_complete]) s
      = run r (signal (emit_error e) :: mid) s ∧
      run r (signal emit_complete :: mid ++ [signal (emit_error e)]) s
      = run r (signal emit_complete :: mid) s) ∧
  (isUnsubscribed o = false →
   ∃ s_e s_c,
     Observer.error r e s = (Return (), s_e) ∧
     trace s_e
     = trace s ++ ((r,.) <$>
         option_list ((λ f, call_error f e) <$> Handler.error (handlers o))
         ++ option_list (call_teardown <$> _unsubscribe o)) ∧
     Observer.complete r s_e = (Return (), s_e) ∧
     Observer.complete r s = (Return (), s_c) ∧
     trace s_c
     = trace s ++ ((r,.) <$>
         option_list (call_complete <$> Handler.complete (handlers o))
         ++ option_list (call_teardown <$> _unsubscribe o)) ∧
     Observer.error r e s_c = (Return (), s_c)).
Proof.
  intros H. split.
  - intros mid. split.
    + destruct (run_terminal s r o (signal (emit_error e) :: mid) H eq_refl)
        as (s' & o' & Hrun & H' & Hb).
      rewrite app_comm_cons.
      rewrite (run_snoc r _ (signal emit_complete) s s' Hrun), Hrun.
      erewrite bind_Return; [done|].
      by apply (send_when_unsubscribed s' r o' emit_complete).
    + destruct (run_terminal s r o (signal emit_complete :: mid) H eq_refl)
        as (s' & o' & Hrun & H' & Hb).
      rewrite app_comm_cons.
      rewrite (run_snoc r _ (signal (emit_error e)) s s' Hrun), Hrun.
      erewrite bind_Return; [done|].
      by apply (send_when_unsubscribed s' r o' (emit_error e)).
  - intros Hb.
    pose proof (exec_spec s r o (signal (emit_error e)) H) as He.
    pose proof (exec_spec s r o (signal emit_complete) H) as Hc.
    cbn [exec send fired after] in He, Hc. rewrite Hb in He, Hc.
    do 2 eexists. split; [exact He|]. split; [done|].
    split.
    { apply (send_when_unsubscribed _ r (Observer.set_isUnsubscribed true o)
               emit_complete); [by eapply stepped_lookup | done]. }
    split; [exact Hc|]. split; [done|].
    apply (send_when_unsubscribed _ r (Observer.set_isUnsubscribed true o)
             (emit_error e)); [by eapply stepped_lookup | done].
Qed.

(** C8.  On an allocated observer that is not unsubscribed, [error(err)]
    calls the [error] handler with [err] if there is one (then runs the
    teardown if one is registered), sets [isUnsubscribed] and returns;
    from then on every [next], [error] and [complete] returns with the
    store unchanged.  On an observer that is already unsubscribed,
    [error(err)] returns with the store unchanged. *)
Theorem error_terminates s r o (err : Err) :
  heap s !! r = Some o →
  (isUnsubscribed o = false →
   ∃ s1,
     Observer.error r err s = (Return (), s1) ∧
     trace s1
     = trace s ++ ((r,.) <$>
         option_list ((λ f, call_error f err) <$> Handler.error (handlers o))
         ++ option_list (call_teardown <$> _unsubscribe o)) ∧
     heap s1 = <[r := Observer.set_isUnsubscribed true o]> (heap s) ∧
     flag r s1 = Some true ∧
     ∀ emits : list Signal, forEach emits (send r) s1 = (Return (), s1)) ∧
  (isUnsubscribed o = true → Observer.error r err s = (Return (), s)).
Proof.
  intros H. split; intros Hb.
  - pose proof (exec_spec s r o (signal (emit_error err)) H) as He.
    cbn [exec send fired after] in He. rewrite Hb in He.
    eexists. split; [exact He|]. split; [done|]. split; [done|].
    assert (heap (stepped s r (Observer.set_isUnsubscribed true o)
              (option_list ((λ f, call_error f err) <$> Handler.error (handlers o))
               ++ option_list (call_teardown <$> _unsubscribe o))) !! r
            = Some (Observer.set_isUnsubscribed true o)) as H1
      by (by eapply stepped_lookup).
    split; [unfold flag; by rewrite H1|].
    intros emits. rewrite forEach_send. erewrite run_spec by exact H1.
    destruct (signals_silent emits (Observer.set_isUnsubscribed true o) eq_refl)
      as [-> ->].
    by rewrite stepped_nothing.
  - by apply (send_when_unsubscribed s r o (emit_error err)).
Qed.

Lemma history_spec (ops : list Op) : ∀ s r o,
  heap s !! r = Some o →
  ∃ k, k ≤ length ops ∧
       history r ops s
       = replicate k (Some false) ++ replicate (length ops - k) (Some true) ∧
       (isUnsubscribed o = true → k = 0).
Proof.
  induction ops as [|op ops IH]; intros s r o H.
  - exists 0. by repeat split.
  - cbn [history]. rewrite (exec_spec s r o op H). cbn [snd].
    set (s' := stepped s r (after op o) (fired op o)).
    assert (heap s' !! r = Some (after op o)) as H' by (by eapply stepped_lookup).
    destruct (IH s' r (after op o) H') as (k & Hk & -> & Hz).
    unfold flag. rewrite H'. cbn [fmap option_fmap option_map].
    destruct (isUnsubscribed (after op o)) eqn:Hb.
    + rewrite (Hz eq_refl). exists 0. split; [lia|]. split; [|done].
      simpl. by rewrite Nat.sub_0_r.
    + exists (S k). split; [simpl; lia|]. split; [done|].
      intros Ho. by rewrite (after_flag_stays op o Ho) in Hb.
Qed.

(** C9.  A newly constructed observer has [isUnsubscribed = false].
    Whatever sequence of operations is then applied to it (signals,
    [unsubscribe()] calls, assignments of the teardown slot), every one of
    them returns, and the values of the flag after each operation are a
    run of [false] followed by a run of [true]: the flag never goes back
    to [false], and it changes at most once. *)
Theorem isUnsubscribed_never_reverts (h : Handler.t Fn) (ops : list Op) s :
  let r := length (heap s) in
  ∃ s' s'' k,
    Observer.new h s = (Return r, s') ∧
    flag r s' = Some false ∧
    run r ops s' = (Return (), s'') ∧
    k ≤ length ops ∧
    history r ops s'
    = replicate k (Some false) ++ replicate (length ops - k) (Some true).
Proof.
  intros r.
  set (s' := mkStore (heap s ++ [mkObserver h false None]) (trace s)).
  assert (heap s' !! r = Some (mkObserver h false None)) as H by apply lookup_last.
  destruct (history_spec ops s' r _ H) as (k & Hk & Hh & _).
  eexists s', _, k. split; [done|].
  split; [unfold flag; simpl; subst r; by rewrite lookup_last|].
  split; [by apply run_spec|]. done.
Qed.
End LifeCycle.

(** ** Subscriptions without handlers *)

Section MissingHandlers.
Context {T Err Fn : Type}.
Local Abbreviation Store := (Store T Err Fn).
Local Abbreviation Op := (Op T Err Fn).
Local Abbreviation Signal := (Signal T Err).
Implicit Types (s : Store) (r : ObsRef) (o : Observer Fn)
  (tr : list (ObsRef * Call T Err Fn)).

Lemma flag_after_signals (emits : list Signal) : ∀ o,
  isUnsubscribed (after_all (signal <$> emits) o)
  = isUnsubscribed o || existsb is_terminal_signal emits.
Proof.
  induction emits as [|sg emits IH]; intros o.
  - simpl. by rewrite orb_false_r.
  - rewrite fmap_cons, after_all_cons, IH.
    destruct sg; simpl; by rewrite ?orb_true_r.
Qed.

Lemma handler_calls_app tr1 tr2 :
  handler_calls (tr1 ++ tr2) = handler_calls tr1 ++ handler_calls tr2.
Proof. apply List.filter_app. Qed.

Lemma handler_calls_teardowns r (cs : list (Call T Err Fn)) :
  Forall (λ c, is_teardown c = true) cs → handler_calls ((r,.) <$> cs) = [].
Proof.
  induction 1 as [|c cs Hc _ IH]; [done|].
  unfold handler_calls, is_handler_call in *. simpl. by rewrite Hc.
Qed.

Lemma fired_no_handlers (op : Op) o :
  handlers o = no_handlers →
  Forall (λ c, is_teardown c = true) (fired op o).
Proof.
  intros Hh. destruct op as [[v|e|]| |t]; simpl; rewrite ?Hh; simpl;
    destruct (isUnsubscribed o), (_unsubscribe o); by repeat constructor.
Qed.

Lemma fired_all_no_handlers (ops : list Op) : ∀ o,
  handlers o = no_handlers →
  Forall (λ c, is_teardown c = true) (fired_all ops o).
Proof.
  induction ops as [|op ops IH]; intros o Hh; [by constructor|].
  rewrite fired_all_cons. apply Forall_app. split.
  - by apply fired_no_handlers.
  - apply IH. by rewrite after_handlers.
Qed.

Lemma fired_signals_no_slot (emits : list Signal) : ∀ o,
  _unsubscribe o = None →
  Forall (λ c, is_teardown c = false) (fired_all (signal <$> emits) o).
Proof.
  induction emits as [|sg emits IH]; intros o Ht; [by constructor|].
  rewrite fmap_cons, fired_all_cons. apply Forall_app. split.
  - destruct sg; simpl; rewrite ?Ht; destruct (isUnsubscribed o); simpl;
      try (by constructor).
    + destruct (Handler.next (handlers o)); by repeat constructor.
    + destruct (Handler.error (handlers o)); by repeat constructor.
    + destruct (Handler.complete (handlers o)); by repeat constructor.
  - apply IH. by destruct sg.
Qed.

Lemma Forall_both_nil (cs : list (Call T Err Fn)) :
  Forall (λ c, is_teardown c = true) cs →
  Forall (λ c, is_teardown c = false) cs → cs = [].
Proof.
  destruct cs as [|c cs]; [done|]. intros H1 H2.
  apply Forall_cons_1 in H1 as [H1 _]. apply Forall_cons_1 in H2 as [H2 _].
  congruence.
Qed.

(** C6.  Subscribe with [{}] to any scripted observable.  [subscribe]
    returns normally and makes no call at all, and the observer ends up
    unsubscribed exactly when the producer sent an [error] or a
    [complete].  Any signals sent to that observer afterwards return
    normally as well, call no handler, and again leave the observer
    unsubscribed exactly when an [error] or [complete] was among all the
    signals sent. *)
Theorem empty_handlers_never_throw
    (emits later : list Signal) (ret : option (Teardown Fn)) s0 :
  let r := length (heap s0) in
  ∃ sub s1 s2,
    Observable.subscribe (scripted emits ret) no_handlers s0 = (Return sub, s1) ∧
    trace s1 = trace s0 ∧
    flag r s1 = Some (existsb is_terminal_signal emits) ∧
    forEach later (send r) s1 = (Return (), s2) ∧
    handler_calls (trace s2) = handler_calls (trace s0) ∧
    flag r s2 = Some (existsb is_terminal_signal (emits ++ later)).
Proof.
  intros r. set (fresh := mkObserver (@no_handlers Fn) false None).
  set (o1 := mkObserver (@no_handlers Fn)
               (isUnsubscribed (after_all (signal <$> emits) fresh)) ret).
  assert (fired_all (signal <$> emits) fresh = []) as Hnil.
  { apply Forall_both_nil.
    - by apply fired_all_no_handlers.
    - by apply fired_signals_no_slot. }
  eexists _, _, _. split; [apply subscribe_scripted|]. fold fresh r o1.
  rewrite Hnil. cbn [trace fmap list_fmap]. rewrite app_nil_r.
  set (s1 := mkStore (heap s0 ++ [o1]) (trace s0)).
  assert (heap s1 !! r = Some o1) as H1 by apply lookup_last.
  split; [done|]. split.
  { unfold flag. rewrite H1. simpl. by rewrite flag_after_signals. }
  split; [rewrite forEach_send; by apply run_spec|].
  split.
  - cbn [stepped trace]. rewrite handler_calls_app, handler_calls_teardowns.
    + apply app_nil_r.
    + by apply fired_all_no_handlers.
  - unfold flag. erewrite stepped_lookup by done. simpl.
    rewrite existsb_app, flag_after_signals. cbn [isUnsubscribed o1].
    by rewrite flag_after_signals.
Qed.
End MissingHandlers.

(** ** Several subscriptions *)

Section Independence.
Context {T Err Fn : Type}.
Local Abbreviation Store := (Store T Err Fn).
Local Abbreviation Op := (Op T Err Fn).
Local Abbreviation Signal := (Signal T Err).
Implicit Types (s : Store) (r : ObsRef) (o : Observer Fn)
  (tr : list (ObsRef * Call T Err Fn)) (cs : list (Call T Err Fn)).

Lemma calls_of_app r tr1 tr2 :
  calls_of r (tr1 ++ tr2) = calls_of r tr1 ++ calls_of r tr2.
Proof. unfold calls_of. by rewrite List.filter_app, fmap_app. Qed.

Lemma calls_of_own r cs : calls_of r ((r,.) <$> cs) = cs.
Proof.
  induction cs as [|c cs IH]; [done|].
  unfold calls_of in *. rewrite fmap_cons. cbn [List.filter fst].
  rewrite Nat.eqb_refl, fmap_cons. cbn [snd]. by rewrite IH.
Qed.

Lemma calls_of_other r r' cs : r' ≠ r → calls_of r ((r',.) <$> cs) = [].
Proof.
  intros Hne. induction cs as [|c cs IH]; [done|].
  unfold calls_of in *. rewrite fmap_cons. cbn [List.filter fst].
  by destruct (Nat.eqb_spec r' r).
Qed.

Lemma ops_on_cons_same r (op : Op) sch :
  ops_on r ((r, op) :: sch) = op :: ops_on r sch.
Proof. unfold ops_on. simpl. by rewrite Nat.eqb_refl. Qed.

Lemma ops_on_cons_other r r' (op : Op) sch :
  r' ≠ r → ops_on r ((r', op) :: sch) = ops_on r sch.
Proof. intros Hne. unfold ops_on. simpl. by destruct (Nat.eqb_spec r' r). Qed.

(** Playing a schedule: each observer sees its own operations only. *)
Lemma play_spec (sch : list (ObsRef * Op)) : ∀ s,
  Forall (λ e, e.1 < length (heap s)) sch →
  ∃ s',
    play sch s = (Return (), s') ∧
    length (heap s') = length (heap s) ∧
    ∀ r o, heap s !! r = Some o →
      heap s' !! r = Some (after_all (ops_on r sch) o) ∧
      calls_of r (trace s') = calls_of r (trace s) ++ fired_all (ops_on r sch) o.
Proof.
  induction sch as [|[r0 op] sch IH]; intros s Hall.
  - exists s. split; [done|]. split; [done|]. intros r o H.
    split; [done|]. by rewrite app_nil_r.
  - apply Forall_cons_1 in Hall as [Hr0 Hall]. simpl in Hr0.
    destruct (lookup_lt_is_Some_2 _ _ Hr0) as [o0 H0].
    set (s1 := stepped s r0 (after op o0) (fired op o0)).
    assert (length (heap s1) = length (heap s)) as Hlen by apply length_insert.
    destruct (IH s1) as (s' & Hplay & Hlen' & Hview).
    { by rewrite Hlen. }
    exists s'. split.
    { unfold play. simpl. erewrite bind_Return by (by apply exec_spec).
      exact Hplay. }
    split; [by rewrite Hlen'|].
    intros r o H. destruct (decide (r0 = r)) as [->|Hne].
    + assert (o0 = o) as -> by congruence.
      destruct (Hview r (after op o)) as [Hh Hc]; [by eapply stepped_lookup|].
      rewrite ops_on_cons_same, after_all_cons, fired_all_cons.
      split; [done|]. rewrite Hc. subst s1. cbn [stepped trace].
      by rewrite calls_of_app, calls_of_own, app_assoc.
    + destruct (Hview r o) as [Hh Hc].
      { subst s1. by rewrite stepped_lookup_ne. }
      rewrite ops_on_cons_other by done.
      split; [done|]. rewrite Hc. subst s1. cbn [stepped trace].
      by rewrite calls_of_app, calls_of_other, app_nil_r.
Qed.

Lemma between_allocated r1 r2 (steps : list (bool * Op)) n :
  r1 < n → r2 < n → Forall (λ e, e.1 < n) (between r1 r2 steps).
Proof.
  intros H1 H2. unfold between. apply Forall_fmap, Forall_forall.
  intros [[] op] _; done.
Qed.

Lemma ops_on_second r1 r2 (steps : list (bool * Op)) :
  r1 ≠ r2 →
  ops_on r2 (between r1 r2 (only false steps)) = ops_on r2 (between r1 r2 steps).
Proof.
  intros Hne. induction steps as [|[[] op] steps IH]; [done| |].
  - unfold only. simpl. fold (only false steps).
    by rewrite ops_on_cons_other.
  - unfold only. simpl. fold (only false steps).
    by rewrite !ops_on_cons_same, IH.
Qed.

Lemma ops_on_first r1 r2 (steps : list (bool * Op)) :
  r1 ≠ r2 →
  ops_on r1 (between r1 r2 (only true steps)) = ops_on r1 (between r1 r2 steps).
Proof.
  intros Hne. induction steps as [|[[] op] steps IH]; [done| |].
  - unfold only. simpl. fold (only true steps).
    by rewrite !ops_on_cons_same, IH.
  - unfold only. simpl. fold (only true steps).
    by rewrite ops_on_cons_other.
Qed.

Lemma fired_received (emits : list Signal) : ∀ o,
  isUnsubscribed o = false →
  _unsubscribe o = None →
  fired_all (signal <$> emits : list Op) o = received (handlers o) emits.
Proof.
  induction emits as [|sg emits IH]; intros o Hb Ht; [done|].
  rewrite fmap_cons, fired_all_cons. cbn [received].
  destruct sg as [v|e|]; cbn [fired after handler_call_of is_terminal_signal];
    rewrite ?Hb, ?Ht.
  - by rewrite IH.
  - destruct (signals_silent emits (Observer.set_isUnsubscribed true o) eq_refl)
      as [-> _].
    simpl. by rewrite !app_nil_r.
  - destruct (signals_silent emits (Observer.set_isUnsubscribed true o) eq_refl)
      as [-> _].
    simpl. by rewrite !app_nil_r.
Qed.

Lemma fired_unsubscribes_teardown n o :
  Forall (λ c : Call T Err Fn, is_teardown c = true)
    (fired_all (replicate n (op_unsubscribe : Op)) o).
Proof.
  destruct (_unsubscribe o) as [t|] eqn:Ht.
  - erewrite fired_unsubscribes by done. by apply Forall_replicate.
  - rewrite fired_unsubscribes_none by done. by constructor.
Qed.

(** C7, as amended.  Take a scripted observable: its producer sends a
    fixed sequence of signals and returns a fixed teardown or nothing.
    Subscribe to it twice, calling the first handle's [unsubscribe()] any
    number [k] of times in between.  Both [subscribe] calls return.  The
    second subscription receives the emission sequence in full: its calls
    are exactly the handler calls [received h2 emits], one per signal in
    order, up to and including the first [error] or [complete].  So does
    the first: its calls are [received h1 emits], followed only by the [k]
    teardown runs of its own [unsubscribe()] calls.  Whatever is done
    afterwards to the two observers, in any interleaving [steps] (signals
    sent late, [unsubscribe()] calls, assignments of the teardown slot),
    each of the two ends up with the same fields and the same calls as if
    the steps aimed at the other one had never happened. *)
Theorem subscriptions_are_independent
    (emits : list Signal) (ret : option (Teardown Fn)) (h1 h2 : Handler.t Fn)
    (k : nat) (steps : list (bool * Op)) s0 :
  let obs := scripted emits ret in
  let r1 := length (heap s0) in
  let r2 := S r1 in
  ∃ sub1 sub2 s added t t2 t1,
    (sub1 ← Observable.subscribe obs h1;
     times k (Observable.unsubscribe sub1);;
     sub2 ← Observable.subscribe obs h2;
     mret (sub1, sub2)) s0 = (Return (sub1, sub2), s) ∧
    trace s = trace s0 ++ added ∧
    calls_of r1 added
    = received h1 emits
      ++ match ret with
         | Some td => replicate k (call_teardown td)
         | None => []
         end ∧
    calls_of r2 added = received h2 emits ∧
    play (between r1 r2 steps) s = (Return (), t) ∧
    play (between r1 r2 (only false steps)) s = (Return (), t2) ∧
    play (between r1 r2 (only true steps)) s = (Return (), t1) ∧
    heap t !! r2 = heap t2 !! r2 ∧
    calls_of r2 (trace t) = calls_of r2 (trace t2) ∧
    heap t !! r1 = heap t1 !! r1 ∧
    calls_of r1 (trace t) = calls_of r1 (trace t1).
Proof.
  intros obs r1 r2.
  set (F1 := fired_all (signal <$> emits) (mkObserver h1 false None)).
  set (F2 := fired_all (signal <$> emits) (mkObserver h2 false None)).
  set (o1 := mkObserver h1
    (isUnsubscribed (after_all (signal <$> emits) (mkObserver h1 false None))) ret).
  set (o2 := mkObserver h2
    (isUnsubscribed (after_all (signal <$> emits) (mkObserver h2 false None))) ret).
  set (unsubs := replicate k (op_unsubscribe : Op)).
  set (o1' := after_all unsubs o1).
  set (U := fired_all unsubs o1).
  set (sa := mkStore (heap s0 ++ [o1]) (trace s0 ++ ((r1,.) <$> F1))).
  set (sb := mkStore (heap s0 ++ [o1']) ((trace s0 ++ ((r1,.) <$> F1)) ++ ((r1,.) <$> U))).
  set (s := mkStore ((heap s0 ++ [o1']) ++ [o2])
              (((trace s0 ++ ((r1,.) <$> F1)) ++ ((r1,.) <$> U)) ++ ((r2,.) <$> F2))).
  assert (Observable.subscribe obs h1 s0
          = (Return (Observable.mkSubscription (Observer.unsubscribe r1)), sa))
    as Hsub1 by apply subscribe_scripted.
  assert (times k (Observer.unsubscribe r1) sa = (Return (), sb)) as Hunsub.
  { rewrite times_unsubscribe. erewrite run_spec by apply lookup_last.
    unfold stepped, sb, sa. cbn [heap trace]. subst r1.
    by rewrite insert_last. }
  assert (length (heap sb) = r2) as Hlen.
  { subst sb r2 r1. cbn [heap]. rewrite length_app. simpl. lia. }
  assert (Observable.subscribe obs h2 sb
          = (Return (Observable.mkSubscription (Observer.unsubscribe r2)), s))
    as Hsub2.
  { unfold obs. rewrite subscribe_scripted. by rewrite Hlen. }
  assert (heap s !! r2 = Some o2) as H2.
  { subst s. cbn [heap]. rewrite <- Hlen. apply lookup_last. }
  assert (heap s !! r1 = Some o1') as H1.
  { subst s. cbn [heap]. rewrite lookup_app_l.
    - apply lookup_last.
    - rewrite length_app. simpl. lia. }
  assert (length (heap s) = S r2) as Hlen2.
  { subst s. cbn [heap]. rewrite !length_app. simpl. lia. }
  assert (r1 ≠ r2) as Hne by (subst r2; lia).
  destruct (play_spec (between r1 r2 steps) s) as (t & Ht & _ & Vt).
  { apply between_allocated; lia. }
  destruct (play_spec (between r1 r2 (only false steps)) s) as (t2 & Ht2 & _ & Vt2).
  { apply between_allocated; lia. }
  destruct (play_spec (between r1 r2 (only true steps)) s) as (t1 & Ht1 & _ & Vt1).
  { apply between_allocated; lia. }
  exists (Observable.mkSubscription (Observer.unsubscribe r1)),
         (Observable.mkSubscription (Observer.unsubscribe r2)),
         s, (((r1,.) <$> F1) ++ ((r1,.) <$> U) ++ ((r2,.) <$> F2)), t, t2, t1.
  split.
  { erewrite bind_Return by exact Hsub1. cbn [Observable.unsubscribe].
    erewrite bind_Return by exact Hunsub.
    erewrite bind_Return by exact Hsub2. done. }
  split; [subst s; cbn [trace]; by rewrite !app_assoc|].
  split.
  { rewrite !calls_of_app, !calls_of_own, calls_of_other, app_nil_r by lia.
    subst F1 U unsubs. rewrite fired_received by done. f_equal.
    destruct ret as [td|].
    - by apply fired_unsubscribes.
    - by apply fired_unsubscribes_none. }
  split.
  { rewrite !calls_of_app, calls_of_own, !calls_of_other by lia.
    subst F2. by rewrite fired_received. }
  split; [exact Ht|]. split; [exact Ht2|]. split; [exact Ht1|].
  destruct (Vt r2 o2 H2) as [-> ->]. destruct (Vt2 r2 o2 H2) as [-> ->].
  rewrite ops_on_second by done. split; [done|]. split; [done|].
  destruct (Vt r1 o1' H1) as [-> ->]. destruct (Vt1 r1 o1' H1) as [-> ->].
  rewrite ops_on_first by done. done.
Qed.
End Independence.

(** C7, as stated for every observable, fails: a producer may keep state of
    its own.  Of two subscriptions to [one_shot] with the same handlers the
    first receives [next(1)] and [complete], the second receives [complete]
    only: the second does not receive the emission sequence the first
    received. *)
Lemma one_shot_second_subscription_differs :
  ∃ s,
    one_shot_twice empty_store = (Return (), s) ∧
    calls_of 0 (trace s)
    = [call_next "collect" 1%Z; call_complete "markDone"] ∧
    calls_of 1 (trace s) = [call_complete "markDone"] ∧
    calls_of 1 (trace s) ≠ calls_of 0 (trace s).
Proof.
  eexists. split; [vm_compute; reflexivity|].
  split; [reflexivity|]. split; [reflexivity|].
  vm_compute. discriminate.
Qed.

(** ** The properties at concrete stores *)

(** Scenario B: the consumer sees [next(1)], then the error, and nothing
    after it; no teardown was returned, so none is run. *)
Example scenario_B_calls :
  ∃ sub s, scenario_B empty_store = (Return sub, s) ∧
           trace s = [ (0, call_next "handleRequest" 1%Z);
                       (0, call_error "handleError" "x") ] ∧
           heap s = [ mkObserver all_handlers true None ].
Proof. do 2 eexists. split; [vm_compute; reflexivity|]. split; reflexivity. Qed.

Lemma silent_after_terminal_witness :
  ∃ s',
    run 0 [signal (emit_next 1%Z); signal (emit_error "x")] live_store
    = (Return (), s') ∧
    send 0 (emit_next 2%Z) s' = (Return (), s') ∧
    run 0 ([signal (emit_next 1%Z); signal (emit_error "x")]
           ++ [signal (emit_next 2%Z)]) live_store
    = (Return (), s').
Proof.
  apply (silent_after_terminal live_store 0
           (mkObserver all_handlers false (Some (teardown_fn "cleanup")))
           [signal (emit_next 1%Z); signal (emit_error "x")] (emit_next 2%Z)).
  - reflexivity.
  - reflexivity.
Defined.

Lemma first_terminal_signal_wins_witness :
  ∃ s_e s_c,
    Observer.error 0 "x" live_store = (Return (), s_e) ∧
    trace s_e
    = trace live_store ++ ((0,.) <$>
        option_list ((λ f, call_error f "x") <$> Some "handleError")
        ++ option_list (call_teardown <$> Some (teardown_fn "cleanup"))) ∧
    Observer.complete 0 s_e = (Return (), s_e) ∧
    Observer.complete 0 live_store = (Return (), s_c) ∧
    trace s_c
    = trace live_store ++ ((0,.) <$>
        option_list (call_complete <$> Some "handleComplete")
        ++ option_list (call_teardown <$> Some (teardown_fn "cleanup"))) ∧
    Observer.error 0 "x" s_c = (Return (), s_c).
Proof.
  destruct (first_terminal_signal_wins live_store 0
              (mkObserver all_handlers false (Some (teardown_fn "cleanup")))
              "x" eq_refl) as [_ H].
  exact (H eq_refl).
Defined.

Lemma error_terminates_witness :
  (∃ s1,
     Observer.error 0 "x" live_store = (Return (), s1) ∧
     trace s1
     = trace live_store ++ ((0,.) <$>
         option_list ((λ f, call_error f "x") <$> Some "handleError")
         ++ option_list (call_teardown <$> Some (teardown_fn "cleanup"))) ∧
     heap s1 = heap dead_store ∧
     flag 0 s1 = Some true ∧
     ∀ emits : list (Signal Z string), forEach emits (send 0) s1 = (Return (), s1)) ∧
  Observer.error 0 "x" dead_store = (Return (), dead_store).
Proof.
  split.
  - destruct (error_terminates live_store 0
                (mkObserver all_handlers false (Some (teardown_fn "cleanup")))
                "x" eq_refl) as [H _].
    exact (H eq_refl).
  - destruct (error_terminates dead_store 0
                (mkObserver all_handlers true (Some (teardown_fn "cleanup")))
                "x" eq_refl) as [_ H].
    exact (H eq_refl).
Defined.

(** * Further properties of the two classes *)

(** ** [complete], [next] and the number of teardown runs *)

Section MoreLifeCycle.
Context {T Err Fn : Type}.
Local Abbreviation Store := (Store T Err Fn).
Local Abbreviation Op := (Op T Err Fn).
Local Abbreviation Signal := (Signal T Err).
Implicit Types (s : Store) (r : ObsRef) (o : Observer Fn).

Lemma forEach_next r (values : list T) s :
  forEach values (λ value, Observer.next r value) s
  = run r (signal <$> (emit_next <$> values)) s.
Proof.
  revert s. induction values as [|v vs IH]; intros s; [done|].
  unfold run. simpl. unfold mbind, M_bind.
  destruct (Observer.next r v s) as [[[]|e] s']; [apply IH | done].
Qed.

Lemma after_nexts (values : list T) o :
  after_all (signal <$> (emit_next <$> values) : list Op) o = o.
Proof. revert o. induction values as [|v vs IH]; intros o; [done|]. apply IH. Qed.

Lemma fired_nexts (values : list T) o :
  isUnsubscribed o = false →
  fired_all (signal <$> (emit_next <$> values) : list Op) o
  = next_calls (Handler.next (handlers o)) values.
Proof.
  intros Hb. induction values as [|v vs IH].
  - unfold next_calls. by destruct (Handler.next (handlers o)).
  - rewrite !fmap_cons, fired_all_cons. cbn [after fired]. rewrite Hb, IH.
    unfold next_calls. by destruct (Handler.next (handlers o)).
Qed.

(** X1.  On an allocated observer that is not unsubscribed, [complete()]
    calls the [complete] handler if there is one, then runs the teardown if
    one is registered, sets [isUnsubscribed] and changes nothing else; from
    then on every signal returns with the store unchanged.  On an observer
    that is already unsubscribed, [complete()] returns with the store
    unchanged. *)
Theorem complete_terminates s r o :
  heap s !! r = Some o →
  (isUnsubscribed o = false →
   ∃ s1,
     Observer.complete r s = (Return (), s1) ∧
     trace s1
     = trace s ++ ((r,.) <$>
         option_list (call_complete <$> Handler.complete (handlers o))
         ++ option_list (call_teardown <$> _unsubscribe o)) ∧
     heap s1 = <[r := Observer.set_isUnsubscribed true o]> (heap s) ∧
     flag r s1 = Some true ∧
     ∀ emits : list Signal, forEach emits (send r) s1 = (Return (), s1)) ∧
  (isUnsubscribed o = true → Observer.complete r s = (Return (), s)).
Proof.
  intros H. split; intros Hb.
  - pose proof (exec_spec s r o (signal emit_complete) H) as Hc.
    cbn [exec send fired after] in Hc. rewrite Hb in Hc.
    eexists. split; [exact Hc|]. split; [done|]. split; [done|].
    set (s1 := stepped s r _ _).
    assert (heap s1 !! r = Some (Observer.set_isUnsubscribed true o)) as H1
      by (by eapply stepped_lookup).
    split; [unfold flag; by rewrite H1|].
    intros emits. rewrite forEach_send. erewrite run_spec by exact H1.
    destruct (signals_silent emits (Observer.set_isUnsubscribed true o) eq_refl)
      as [-> ->].
    by rewrite stepped_nothing.
  - by apply (send_when_unsubscribed s r o emit_complete).
Qed.

(** X2.  On an allocated observer that is not unsubscribed, sending any
    list of values with [next] returns normally, leaves every observer as it
    was (the observer stays live) and, when there is a [next] handler, calls
    it once per value, in the order of the list; without a [next] handler no
    call is made. *)
Theorem next_delivers_in_order s r o (values : list T) :
  heap s !! r = Some o →
  isUnsubscribed o = false →
  ∃ s1,
    forEach values (λ value, Observer.next r value) s = (Return (), s1) ∧
    heap s1 = heap s ∧
    trace s1 = trace s ++ ((r,.) <$> next_calls (Handler.next (handlers o)) values).
Proof.
  intros H Hb. eexists. split.
  - rewrite forEach_next. by apply run_spec.
  - rewrite after_nexts, fired_nexts by done. split; [|done].
    simpl. by apply list_insert_id.
Qed.

Lemma teardown_count_tagged r (cs : list (Call T Err Fn)) :
  teardown_count ((r,.) <$> cs) = length (List.filter is_teardown cs).
Proof.
  unfold teardown_count. induction cs as [|c cs IH]; [done|].
  rewrite fmap_cons. cbn [List.filter snd]. destruct (is_teardown c); simpl; by rewrite IH.
Qed.

Lemma teardowns_when_unsubscribed (ops : list Op) : ∀ o,
  isUnsubscribed o = true →
  is_Some (_unsubscribe o) →
  length (List.filter is_teardown (fired_all ops o))
  = length (List.filter is_unsubscribe ops).
Proof.
  induction ops as [|op ops IH]; intros o Hb [t Ht]; [done|].
  rewrite fired_all_cons, List.filter_app, length_app.
  rewrite IH; [|by apply after_flag_stays|].
  - destruct op as [[v|e|]| |t']; simpl; rewrite ?Hb, ?Ht; done.
  - destruct op as [[v|e|]| |t']; simpl; rewrite ?Ht; eauto.
Qed.

(** X3.  How often the teardown runs.  Take an allocated observer with a
    teardown registered and apply any sequence of operations to it.  The
    number of teardown calls made is the number of [unsubscribe()] calls in
    the sequence, plus one if the observer was not unsubscribed and the
    first of [error], [complete], [unsubscribe] in the sequence is an
    [error] or a [complete]. *)
Theorem teardown_runs_counted s r o (ops : list Op) :
  heap s !! r = Some o →
  is_Some (_unsubscribe o) →
  ∃ s',
    run r ops s = (Return (), s') ∧
    teardown_count (trace s')
    = teardown_count (trace s)
      + length (List.filter is_unsubscribe ops)
      + (if isUnsubscribed o then 0
         else match List.find is_terminal ops with
              | Some (signal _) => 1
              | _ => 0
              end).
Proof.
  intros H Hsome. eexists. split; [by apply run_spec|].
  cbn [stepped trace]. rewrite teardown_count_app, teardown_count_tagged.
  rewrite <- Nat.add_assoc. f_equal. clear H s r.
  revert o Hsome. induction ops as [|op ops IH]; intros o Hsome.
  - simpl. by destruct (isUnsubscribed o).
  - destruct (isUnsubscribed o) eqn:Hb.
    { rewrite teardowns_when_unsubscribed by done. lia. }
    rewrite fired_all_cons, List.filter_app, length_app.
    destruct Hsome as [t Ht].
    destruct op as [[v|e|]| |t']; cbn [fired after List.find List.filter
      is_terminal is_terminal_signal is_unsubscribe]; rewrite ?Hb, ?Ht.
    + rewrite IH by eauto. rewrite Hb.
      destruct (Handler.next (handlers o)); simpl; lia.
    + rewrite teardowns_when_unsubscribed by (simpl; eauto).
      destruct (Handler.error (handlers o)); simpl; lia.
    + rewrite teardowns_when_unsubscribed by (simpl; eauto).
      destruct (Handler.complete (handlers o)); simpl; lia.
    + rewrite teardowns_when_unsubscribed by (simpl; eauto). simpl. lia.
    + rewrite IH by (simpl; eauto). simpl. rewrite Hb. lia.
Qed.
End MoreLifeCycle.

(** ** What no operation ever changes *)

Section Invariants.
Context {T Err Fn : Type}.
Local Abbreviation Store := (Store T Err Fn).
Local Abbreviation Op := (Op T Err Fn).
Implicit Types (s : Store) (r : ObsRef) (o : Observer Fn).

Lemma after_all_slot_stays (ops : list Op) : ∀ o,
  is_Some (_unsubscribe o) → is_Some (_unsubscribe (after_all ops o)).
Proof.
  induction ops as [|op ops IH]; intros o Ho; [done|].
  rewrite after_all_cons. apply IH. destruct op as [[| |]| |]; simpl; eauto.
Qed.

Lemma after_all_slot_same (ops : list Op) : ∀ o,
  existsb is_register ops = false →
  _unsubscribe (after_all ops o) = _unsubscribe o.
Proof.
  induction ops as [|op ops IH]; intros o Hno; [done|].
  simpl in Hno. apply orb_false_iff in Hno as [Hop Hno].
  rewrite after_all_cons, IH by done. by destruct op as [[| |]| |].
Qed.

Lemma play_trace_extends (sch : list (ObsRef * Op)) : ∀ s,
  Forall (λ e, e.1 < length (heap s)) sch →
  ∃ s' added, play sch s = (Return (), s') ∧ trace s' = trace s ++ added.
Proof.
  induction sch as [|[r0 op] sch IH]; intros s Hall.
  - exists s, []. split; [done|]. by rewrite app_nil_r.
  - apply Forall_cons_1 in Hall as [Hr0 Hall]. simpl in Hr0.
    destruct (lookup_lt_is_Some_2 _ _ Hr0) as [o0 H0].
    destruct (IH (stepped s r0 (after op o0) (fired op o0)))
      as (s' & added & Hplay & Htr).
    { simpl. by rewrite length_insert. }
    exists s', (((r0,.) <$> fired op o0) ++ added). split.
    + unfold play. simpl. erewrite bind_Return by (by apply exec_spec).
      exact Hplay.
    + rewrite Htr. simpl. by rewrite app_assoc.
Qed.

(** X4.  Play any schedule of operations (signals, [unsubscribe()] calls,
    assignments of the teardown slot) aimed at allocated observers.  Every
    step returns; no observer is created or lost; the calls made so far stay
    in the trace, in place; and each observer keeps its handlers, stays
    unsubscribed once it is, keeps a teardown registered once one is, and
    keeps the very same teardown unless the schedule assigns its slot. *)
Theorem play_keeps_observers (sch : list (ObsRef * Op)) s r o :
  Forall (λ e, e.1 < length (heap s)) sch →
  heap s !! r = Some o →
  ∃ s' o' added,
    play sch s = (Return (), s') ∧
    length (heap s') = length (heap s) ∧
    trace s' = trace s ++ added ∧
    heap s' !! r = Some o' ∧
    handlers o' = handlers o ∧
    (isUnsubscribed o = true → isUnsubscribed o' = true) ∧
    (is_Some (_unsubscribe o) → is_Some (_unsubscribe o')) ∧
    (existsb is_register (ops_on r sch) = false →
     _unsubscribe o' = _unsubscribe o).
Proof.
  intros Hall H.
  destruct (play_spec sch s Hall) as (s' & Hplay & Hlen & Hview).
  destruct (play_trace_extends sch s Hall) as (s'' & added & Hplay' & Htr).
  assert (s'' = s') as -> by congruence.
  destruct (Hview r o H) as [Ho' _].
  exists s', (after_all (ops_on r sch) o), added.
  split; [done|]. split; [done|]. split; [done|]. split; [done|].
  split; [apply after_all_handlers|].
  split; [apply after_all_flag_stays|].
  split; [apply after_all_slot_stays|].
  apply after_all_slot_same.
Qed.
End Invariants.

(** ** More on [subscribe] *)

Section MoreSubscribe.
Context {T Err Fn : Type}.
Local Abbreviation Store := (Store T Err Fn).
Local Abbreviation Op := (Op T Err Fn).
Local Abbreviation Signal := (Signal T Err).
Implicit Types (s : Store) (r : ObsRef) (o : Observer Fn) (h : Handler.t Fn).

Lemma until_terminal_same (emits : list Signal) : ∀ o,
  isUnsubscribed o = false →
  fired_all (signal <$> until_terminal emits : list Op) o
  = fired_all (signal <$> emits) o ∧
  isUnsubscribed (after_all (signal <$> until_terminal emits : list Op) o)
  = isUnsubscribed (after_all (signal <$> emits) o).
Proof.
  induction emits as [|sg emits IH]; intros o Hb; [done|].
  cbn [until_terminal]. destruct (is_terminal_signal sg) eqn:Hsg.
  - rewrite !fmap_cons, !fired_all_cons, !after_all_cons.
    assert (isUnsubscribed (after (signal sg : Op) o) = true) as Ha
      by (by destruct sg).
    destruct (signals_silent emits _ Ha) as [-> ->]. done.
  - rewrite !fmap_cons, !fired_all_cons, !after_all_cons.
    assert (after (signal sg : Op) o = o) as -> by (by destruct sg).
    destruct (IH o Hb) as [-> ->]. done.
Qed.

(** X5.  A producer's signals after its first [error] or [complete] are
    lost: subscribing to a producer gives the same handle and the same
    store, calls included, as subscribing to the producer cut off right
    after its first [error] or [complete]. *)
Theorem subscribe_ignores_signals_after_terminal
    (emits : list Signal) (ret : option (Teardown Fn)) h s0 :
  Observable.subscribe (scripted emits ret) h s0
  = Observable.subscribe (scripted (until_terminal emits) ret) h s0.
Proof.
  rewrite !subscribe_scripted.
  destruct (until_terminal_same emits (mkObserver h false None) eq_refl)
    as [-> ->].
  done.
Qed.

(** X6.  [subscribe] on any scripted observable returns a handle whose
    [unsubscribe] is that of a new observer, appended to the store; the
    observers and calls that were there are untouched.  The new observer has
    the given handlers, has the producer's return value in its teardown
    slot, and is unsubscribed exactly when the producer sent an [error] or
    a [complete].  All calls made are made by the new observer, and none of
    them is a teardown call. *)
Theorem subscribe_allocates_one_observer
    (emits : list Signal) (ret : option (Teardown Fn)) h s0 :
  let r := length (heap s0) in
  ∃ sub s1 cs,
    Observable.subscribe (scripted emits ret) h s0 = (Return sub, s1) ∧
    Observable.unsubscribe sub = Observer.unsubscribe r ∧
    heap s1 = heap s0 ++ [mkObserver h (existsb is_terminal_signal emits) ret] ∧
    trace s1 = trace s0 ++ ((r,.) <$> cs) ∧
    Forall (λ c, is_teardown c = false) cs.
Proof.
  intros r. eexists _, _, _. split; [apply subscribe_scripted|].
  split; [done|]. split.
  - cbn [heap]. by rewrite flag_after_signals.
  - split; [done|]. by apply fired_signals_no_slot.
Qed.

(** X7.  [from(values)] with any set of handlers: the calls made by
    [subscribe] are one [next] call per value, in order, if there is a
    [next] handler, then one [complete] call if there is a [complete]
    handler, and nothing else; the [error] handler plays no part.  The
    observer is left unsubscribed with the logging closure registered. *)
Theorem from_with_any_handlers (values : list T) h s0 :
  let r := length (heap s0) in
  ∃ sub s1,
    Observable.subscribe (Observable.from values) h s0 = (Return sub, s1) ∧
    trace s1
    = trace s0 ++ ((r,.) <$>
        next_calls (Handler.next h) values
        ++ option_list (call_complete <$> Handler.complete h)) ∧
    heap s1 = heap s0 ++ [mkObserver h true (Some (console_log "unsubscribed"))].
Proof.
  intros r. eexists _, _. split.
  - rewrite subscribe_from. apply subscribe_scripted.
  - cbn [heap trace]. rewrite flag_after_signals, existsb_app. cbn [existsb].
    rewrite orb_true_r, orb_true_r. split; [|done].
    rewrite fmap_app, fired_all_app, after_nexts, fired_nexts by done.
    simpl. by rewrite !app_nil_r.
Qed.

(** X8.  A producer that has only sent values when [subscribe] returns
    leaves the subscription live, with its return value registered.  A
    [complete()] or an [error(e)] that arrives later calls the matching
    handler, if there is one, and then runs the registered teardown, if
    there is one.  In either case an [unsubscribe()] on the handle after
    that returns normally, runs the teardown once more, calls nothing else
    and leaves the observer unsubscribed. *)
Theorem late_terminal_signal_runs_teardown
    (values : list T) (ret : option (Teardown Fn)) h (e : Err) s0 :
  let r := length (heap s0) in
  ∃ sub s1 s_c s_e s_u s_v,
    Observable.subscribe (scripted (emit_next <$> values) ret) h s0
    = (Return sub, s1) ∧
    flag r s1 = Some false ∧
    Observer.complete r s1 = (Return (), s_c) ∧
    trace s_c
    = trace s1 ++ ((r,.) <$>
        option_list (call_complete <$> Handler.complete h)
        ++ option_list (call_teardown <$> ret)) ∧
    Observer.error r e s1 = (Return (), s_e) ∧
    trace s_e
    = trace s1 ++ ((r,.) <$>
        option_list ((λ f, call_error f e) <$> Handler.error h)
        ++ option_list (call_teardown <$> ret)) ∧
    flag r s_c = Some true ∧
    flag r s_e = Some true ∧
    Observable.unsubscribe sub s_c = (Return (), s_u) ∧
    trace s_u = trace s_c ++ ((r,.) <$> option_list (call_teardown <$> ret)) ∧
    flag r s_u = Some true ∧
    Observable.unsubscribe sub s_e = (Return (), s_v) ∧
    trace s_v = trace s_e ++ ((r,.) <$> option_list (call_teardown <$> ret)) ∧
    flag r s_v = Some true.
Proof.
  intros r.
  pose proof (subscribe_scripted (emit_next <$> values) ret h s0) as Hsub.
  cbn zeta in Hsub. fold r in Hsub.
  rewrite after_nexts in Hsub. cbn [isUnsubscribed] in Hsub.
  set (o1 := mkObserver h false ret) in *.
  set (s1 := mkStore (heap s0 ++ [o1]) _) in *.
  assert (heap s1 !! r = Some o1) as H1 by apply lookup_last.
  pose proof (exec_spec s1 r o1 (signal emit_complete) H1) as Hc.
  pose proof (exec_spec s1 r o1 (signal (emit_error e)) H1) as He.
  cbn [exec send fired after isUnsubscribed o1 handlers _unsubscribe] in Hc, He.
  set (s_c := stepped s1 r _ _) in Hc. set (s_e := stepped s1 r _ _) in He.
  set (o2 := Observer.set_isUnsubscribed true o1).
  assert (heap s_c !! r = Some o2) as H2 by (by eapply stepped_lookup).
  assert (heap s_e !! r = Some o2) as H3 by (by eapply stepped_lookup).
  pose proof (unsubscribe_spec s_c r o2 H2) as Hu.
  pose proof (unsubscribe_spec s_e r o2 H3) as Hv.
  set (s_u := stepped s_c r _ _) in Hu. set (s_v := stepped s_e r _ _) in Hv.
  eexists _, s1, s_c, s_e, s_u, s_v. split; [exact Hsub|].
  split; [unfold flag; by rewrite H1|].
  split; [exact Hc|]. split; [done|]. split; [exact He|]. split; [done|].
  split; [unfold flag; by rewrite H2|].
  split; [unfold flag; by rewrite H3|].
  split; [exact Hu|]. split; [done|].
  split; [unfold flag; subst s_u; by erewrite stepped_lookup|].
  split; [exact Hv|]. split; [done|].
  unfold flag. subst s_v. by erewrite stepped_lookup.
Qed.

(** X9.  Cancelling before anything terminal happened.  After [subscribe]
    on a producer that has only sent values, the handle's [unsubscribe()]
    runs the registered teardown, if there is one, and calls no handler:
    neither [complete] nor [error] is notified.  Every signal sent to the
    observer after that returns with the store unchanged. *)
Theorem unsubscribe_cancels_silently
    (values : list T) (later : list Signal) (ret : option (Teardown Fn)) h s0 :
  let r := length (heap s0) in
  ∃ sub s1 s2,
    Observable.subscribe (scripted (emit_next <$> values) ret) h s0
    = (Return sub, s1) ∧
    Observable.unsubscribe sub s1 = (Return (), s2) ∧
    trace s2 = trace s1 ++ ((r,.) <$> option_list (call_teardown <$> ret)) ∧
    flag r s2 = Some true ∧
    forEach later (send r) s2 = (Return (), s2).
Proof.
  intros r.
  pose proof (subscribe_scripted (emit_next <$> values) ret h s0) as Hsub.
  cbn zeta in Hsub. fold r in Hsub.
  rewrite after_nexts in Hsub. cbn [isUnsubscribed] in Hsub.
  set (o1 := mkObserver h false ret) in *.
  set (s1 := mkStore (heap s0 ++ [o1]) _) in *.
  assert (heap s1 !! r = Some o1) as H1 by apply lookup_last.
  pose proof (unsubscribe_spec s1 r o1 H1) as Hu.
  set (s2 := stepped s1 r _ _) in Hu.
  assert (heap s2 !! r = Some (Observer.set_isUnsubscribed true o1)) as H2
    by (by eapply stepped_lookup).
  eexists _, s1, s2. split; [exact Hsub|]. split; [exact Hu|].
  split; [done|]. split; [unfold flag; by rewrite H2|].
  rewrite forEach_send. erewrite run_spec by exact H2.
  destruct (signals_silent later (Observer.set_isUnsubscribed true o1) eq_refl)
    as [-> ->].
  by rewrite stepped_nothing.
Qed.
End MoreSubscribe.

(** ** The two scripts *)

Section Scripts.
Context {T Err : Type}.
Local Abbreviation Store := (Store T Err string).

(** X10.  The script at the end of the program, for any array of requests
    and in any store: it returns normally; [handleRequest] is called once
    per request, in the order of the array, then [handleComplete] once,
    then, because of the script's own [unsubscribe()], the logging teardown
    once; [handleError] is never called.  One observer is added, and it is
    left unsubscribed. *)
Theorem execution_calls (requestsMock : list T) (s0 : Store) :
  let r := length (heap s0) in
  ∃ s,
    execution requestsMock s0 = (Return (), s) ∧
    trace s
    = trace s0 ++ ((r,.) <$>
        (call_next "handleRequest" <$> requestsMock)
        ++ [ call_complete "handleComplete";
             call_teardown (console_log "unsubscribed") ]) ∧
    heap s
    = heap s0 ++ [mkObserver all_handlers true (Some (console_log "unsubscribed"))].
Proof.
  intros r.
  destruct (from_with_any_handlers requestsMock all_handlers s0)
    as (sub & s1 & Hsub & Htr & Hheap).
  pose proof Hsub as Hsub'.
  rewrite subscribe_from, subscribe_scripted in Hsub'.
  assert (Observable.unsubscribe sub = Observer.unsubscribe r) as Hu
    by (injection Hsub' as <- _; done).
  assert (heap s1 !! r
          = Some (mkObserver all_handlers true (Some (console_log "unsubscribed"))))
    as H1 by (rewrite Hheap; apply lookup_last).
  eexists. split.
  - unfold execution. erewrite bind_Return by exact Hsub.
    rewrite Hu. by apply unsubscribe_spec.
  - cbn [stepped trace heap]. rewrite Htr, Hheap. split.
    + cbn [next_calls all_handlers Handler.next Handler.complete].
      simpl option_list. rewrite <- !app_assoc, <- fmap_app, <- app_assoc. done.
    + subst r. by rewrite insert_last.
Qed.

Lemma erroring_scripted (a b : T) (e : Err) r (s : Store) :
  Observable._subscribe (erroringObservable a b e) r s
  = Observable._subscribe
      (scripted [emit_next a; emit_error e; emit_next b] None) r s.
Proof.
  unfold erroringObservable, scripted. cbn [Observable._subscribe forEach send].
  unfold mbind, M_bind.
  destruct (Observer.next r a s) as [[[]|x] s1]; [|done].
  destruct (Observer.error r e s1) as [[[]|x] s2]; [|done].
  by destruct (Observer.next r b s2) as [[[]|x] s3].
Qed.

(** X11.  The erroring producer of the other copy, for any two values, any
    error and any set of handlers: [subscribe] returns normally, the first
    value reaches the [next] handler and the error reaches the [error]
    handler (each if present), and the value sent after the error reaches
    nobody.  The producer returns nothing, so no teardown is registered: the
    observer is left unsubscribed with an empty slot, and an
    [unsubscribe()] on the handle makes no call and changes nothing. *)
Theorem erroring_observable_stops_at_error
    (a b : T) (e : Err) (h : Handler.t string) (s0 : Store) :
  let r := length (heap s0) in
  ∃ sub s1,
    Observable.subscribe (erroringObservable a b e) h s0 = (Return sub, s1) ∧
    trace s1
    = trace s0 ++ ((r,.) <$>
        option_list ((λ f, call_next f a) <$> Handler.next h)
        ++ option_list ((λ f, call_error f e) <$> Handler.error h)) ∧
    heap s1 = heap s0 ++ [mkObserver h true None] ∧
    Observable.unsubscribe sub s1 = (Return (), s1).
Proof.
  intros r. eexists _, _. split.
  - erewrite subscribe_ext by apply erroring_scripted. apply subscribe_scripted.
  - cbn -[option_list fmap app lookup insert]. fold r.
    split; [|split; [done|]].
    + do 2 f_equal. by destruct h as [[fn|] [fe|] hc].
    + set (s1 := mkStore _ _).
      assert (heap s1 !! r = Some (mkObserver h true None)) as H1
        by apply lookup_last.
      rewrite (unsubscribe_spec s1 r _ H1). f_equal.
      exact (stepped_nothing s1 r (mkObserver h true None) H1).
Qed.
End Scripts.

(** ** The further properties at concrete stores *)

Lemma complete_terminates_witness :
  (∃ s1,
     Observer.complete 0 live_store = (Return (), s1) ∧
     trace s1
     = trace live_store ++ ((0,.) <$>
         option_list (call_complete <$> Some "handleComplete")
         ++ option_list (call_teardown <$> Some (teardown_fn "cleanup"))) ∧
     heap s1 = heap dead_store ∧
     flag 0 s1 = Some true ∧
     ∀ emits : list (Signal Z string), forEach emits (send 0) s1 = (Return (), s1)) ∧
  Observer.complete 0 dead_store = (Return (), dead_store).
Proof.
  split.
  - destruct (complete_terminates live_store 0
                (mkObserver all_handlers false (Some (teardown_fn "cleanup")))
                eq_refl) as [H _].
    exact (H eq_refl).
  - destruct (complete_terminates dead_store 0
                (mkObserver all_handlers true (Some (teardown_fn "cleanup")))
                eq_refl) as [_ H].
    exact (H eq_refl).
Defined.

Lemma next_delivers_in_order_witness :
  ∃ s1,
    forEach [1; 2; 3]%Z (λ value, Observer.next 0 value) live_store
    = (Return (), s1) ∧
    heap s1 = heap live_store ∧
    trace s1
    = trace live_store
      ++ ((0,.) <$> next_calls (Some "handleRequest") [1; 2; 3]%Z).
Proof.
  apply (next_delivers_in_order live_store 0
           (mkObserver all_handlers false (Some (teardown_fn "cleanup")))
           [1; 2; 3]%Z).
  - reflexivity.
  - reflexivity.
Defined.

Lemma teardown_runs_counted_witness :
  ∃ s',
    run 0 [signal (emit_next 1%Z); signal emit_complete; op_unsubscribe;
           op_unsubscribe] live_store = (Return (), s') ∧
    teardown_count (trace s') = 0 + 2 + 1.
Proof.
  apply (teardown_runs_counted live_store 0
           (mkObserver all_handlers false (Some (teardown_fn "cleanup")))
           [signal (emit_next 1%Z); signal emit_complete; op_unsubscribe;
            op_unsubscribe]).
  - reflexivity.
  - exists (teardown_fn "cleanup"). reflexivity.
Defined.

Lemma play_keeps_observers_witness :
  ∃ s' o' added,
    play [(0, signal (emit_next 1%Z)); (0, op_unsubscribe)] dead_store
    = (Return (), s') ∧
    length (heap s') = 1 ∧
    trace s' = trace dead_store ++ added ∧
    heap s' !! 0 = Some o' ∧
    handlers o' = all_handlers ∧
    isUnsubscribed o' = true ∧
    is_Some (_unsubscribe o') ∧
    _unsubscribe o' = Some (teardown_fn "cleanup").
Proof.
  destruct (play_keeps_observers
              [(0, signal (emit_next 1%Z)); (0, op_unsubscribe)] dead_store 0
              (mkObserver all_handlers true (Some (teardown_fn "cleanup"))))
    as (s' & o' & added & H1 & H2 & H3 & H4 & H5 & H6 & H7 & H8).
  - repeat constructor.
  - reflexivity.
  - exists s', o', added.
    split; [exact H1|]. split; [exact H2|]. split; [exact H3|].
    split; [exact H4|]. split; [exact H5|]. split; [exact (H6 eq_refl)|].
    split; [apply H7; exists (teardown_fn "cleanup"); reflexivity|].
    exact (H8 eq_refl).
Defined.
